(** * The worker-pool execution engine and its supervisor channel

    A shallow embedding of
    - [pyqgiswps/poolserver/supervisor.py]: the worker-side notifier
      ([Client]) and the controller-side kill-timer table ([Supervisor]);
    - [qywps/executors/executor.py]: [PoolExecutor.delete_results],
      [PoolExecutor.execute], [PoolExecutor._run_process],
      [PoolExecutor._clean_processes], [_timeout_kill], the cleanup task of
      [PoolExecutor.schedule_cleanup], and the process registry
      ([install_processes], [list_processes], [get_process]).

    The definitions come first, one module per source class; the lemmas and
    theorems follow. *)

From Stdlib Require Import QArith Qminmax.
From stdpp Require Import gmap strings list fin_maps.

Open Scope string_scope.
Open Scope list_scope.
Open Scope stdpp_scope.

(** ** supervisor.py: [class Client] *)

Module Client.

(** A frame handed to [self._sock.send_multipart]:
    [[str(self._pid).encode(), data]]. *)
Definition frame : Type := Z * string.

(** The notifier: its pid, the [_busy] flag, and the frames it has handed to
    its PUSH socket, oldest first.  [send_multipart] is called with
    [zmq.DONTWAIT]; a [ZMQError] is logged or dropped inside [_send], so the
    caller never sees it, and [sent] records the calls. *)
Record t := mk {
  _pid : Z;
  _busy : bool;
  sent : list frame;
}.

(** [Client.__init__]. *)
Definition init (pid : Z) : t := mk pid false [].

(** [Client._send]. *)
Definition _send (data : string) (c : t) : t :=
  mk (_pid c) (_busy c) (sent c ++ [(_pid c, data)]).

(** [Client.notify_done]. *)
Definition notify_done (c : t) : t :=
  if _busy c then _send "DONE" (mk (_pid c) false (sent c)) else c.

(** [Client.notify_busy]. *)
Definition notify_busy (c : t) : t :=
  if negb (_busy c) then _send "BUSY" (mk (_pid c) true (sent c)) else c.

(** The calls a worker makes on its notifier. *)
Inductive call := NotifyBusy | NotifyDone.

Definition step (c : t) (k : call) : t :=
  match k with
  | NotifyBusy => notify_busy c
  | NotifyDone => notify_done c
  end.

Definition run (ks : list call) (c : t) : t := fold_left step ks c.

(** The frames BUSY, DONE, BUSY, DONE, ... of one worker: the first [n] of
    them, starting with BUSY when [busy] is [false] and with DONE otherwise. *)
Fixpoint alternation (pid : Z) (busy : bool) (n : nat) : list frame :=
  match n with
  | O => []
  | S n' => (pid, if busy then "DONE" else "BUSY") :: alternation pid (negb busy) n'
  end.

(** What holds of the notifier of worker [pid] between two calls: it has
    sent the first [n] frames of BUSY, DONE, BUSY, ... and is busy when [n]
    is odd. *)
Definition invariant (pid : Z) (c : t) : Prop :=
  ∃ n : nat,
    _pid c = pid ∧ sent c = alternation pid false n ∧ _busy c = Nat.odd n.

End Client.

(** ** supervisor.py: [class Supervisor] *)

Module Supervisor.

(** The event loop's timers.  [loop.call_later(delay, kill, pid)] returns a
    fresh [TimerHandle]; handles are numbered in the order of their creation.
    A handle is pending from its creation until it is cancelled or fires. *)
Record t := mk {
  _timeout : Z;
  (** [self._busy]: pid to the handle stored by the last BUSY frame. *)
  _busy : gmap Z nat;
  (** The loop's pending handles, each with its delay and the pid its
      [kill] callback was given. *)
  scheduled : gmap nat (Z * Z);
  next_handle : nat;
  (** The calls of [self._killfunc], oldest first. *)
  killed : list Z;
}.

(** [Supervisor.__init__]. *)
Definition init (timeout : Z) : t := mk timeout ∅ ∅ 0 [].

(** [loop.call_later(delay, kill, pid)]. *)
Definition call_later (delay pid : Z) (s : t) : nat * t :=
  (next_handle s,
   mk (_timeout s) (_busy s) (<[next_handle s := (delay, pid)]> (scheduled s))
      (S (next_handle s)) (killed s)).

(** [TimerHandle.cancel]: nothing happens when the handle is no longer
    pending. *)
Definition cancel (h : nat) (s : t) : t :=
  mk (_timeout s) (_busy s) (delete h (scheduled s)) (next_handle s) (killed s).

(** The closure [kill] of [_run_async]: [del self._busy[pid]] raises
    [KeyError] when the pid is not in the table ([None]), and
    [self._killfunc] is then not reached. *)
Definition kill (pid : Z) (s : t) : option t :=
  match _busy s !! pid with
  | None => None
  | Some _ =>
      Some (mk (_timeout s) (delete pid (_busy s)) (scheduled s)
               (next_handle s) (killed s ++ [pid]))
  end.

(** One received frame, [pid, notif = await self._sock.recv_multipart()]:
    the body of the [try] in the loop of [_run_async]. *)
Definition on_frame (pid : Z) (notif : string) (s : t) : t :=
  if String.eqb notif "BUSY" then
    let '(h, s') := call_later (_timeout s) pid s in
    mk (_timeout s') (<[pid := h]> (_busy s')) (scheduled s')
       (next_handle s') (killed s')
  else if String.eqb notif "DONE" then
    match _busy s !! pid with
    | Some h =>
        cancel h (mk (_timeout s) (delete pid (_busy s)) (scheduled s)
                     (next_handle s) (killed s))
    | None => s
    end
  else s.

(** The loop runs the callback of a pending handle when its delay has
    elapsed; an exception raised by the callback is logged by the loop. *)
Definition on_timer (h : nat) (s : t) : t :=
  match scheduled s !! h with
  | None => s
  | Some (_, pid) =>
      let s' := mk (_timeout s) (_busy s) (delete h (scheduled s))
                   (next_handle s) (killed s) in
      match kill pid s' with
      | Some s'' => s''
      | None => s'
      end
  end.

(** [Supervisor.stop]: [for th in self._busy.values(): th.cancel()], then
    [self._busy.clear()]. *)
Definition stop (s : t) : t :=
  mk (_timeout s) ∅
     (map_fold (λ _ h pending, delete h pending) (scheduled s) (_busy s))
     (next_handle s) (killed s).

(** What the scheduler does between two suspensions of [_run_async]: a frame
    is received and handled, a frame is received whose first part is not an
    integer ([int(pid)] raises, the loop logs and goes on), or a timer
    expires. *)
Inductive event :=
| Recv (pid : Z) (notif : string)
| RecvMalformed
| Expire (h : nat).

Definition step (s : t) (e : event) : t :=
  match e with
  | Recv pid notif => on_frame pid notif s
  | RecvMalformed => s
  | Expire h => on_timer h s
  end.

Definition run (es : list event) (s : t) : t := fold_left step es s.

(** The pending handles whose callback is [kill(pid)]. *)
Definition pending_for (pid : Z) (s : t) : gmap nat (Z * Z) :=
  filter (λ kv, snd (snd kv) = pid) (scheduled s).

(** The handles the loop holds were all created before [next_handle]. *)
Definition handles_below (s : t) : Prop :=
  ∀ h x, scheduled s !! h = Some x → (h < next_handle s)%nat.

(** Every handle in the table is pending, and its callback is the kill of
    the pid it is stored under. *)
Definition table_pending (s : t) : Prop :=
  ∀ pid h, _busy s !! pid = Some h → ∃ delay, scheduled s !! h = Some (delay, pid).

(** No timer is pending outside the table. *)
Definition no_stale (s : t) : Prop :=
  ∀ h delay pid, scheduled s !! h = Some (delay, pid) → _busy s !! pid = Some h.

(** A BUSY frame that arrives for a pid that is not in the table: what the
    loop sees when no DONE was lost. *)
Definition paired (s : t) (e : event) : Prop :=
  match e with
  | Recv pid notif => notif = "BUSY" → _busy s !! pid = None
  | RecvMalformed | Expire _ => True
  end.

End Supervisor.

(** ** executor.py: [class PoolExecutor] and [_timeout_kill] *)

Module PoolExecutor.

(** *** Statuses and exceptions *)

(** Modelled from the spec: the [STATUS] enum, which executor.py imports
    from [qywps.app.WPSResponse]; that module is not among the sources.  Its
    members and their order are those of the spec's status model, ACCEPTED < STARTED < STORE_STATUS < STORE_AND_UPDATE_STATUS
    < DONE_STATUS = DONE < ERROR; the code names the last four
    [STATUS.STORE_STATUS], [STATUS.STORE_AND_UPDATE_STATUS],
    [STATUS.DONE_STATUS] and [STATUS.ERROR_STATUS]. *)
Inductive STATUS :=
| ACCEPTED
| STARTED
| STORE_STATUS
| STORE_AND_UPDATE_STATUS
| DONE_STATUS
| ERROR_STATUS.

#[export] Instance STATUS_eq_dec : EqDecision STATUS.
Proof. solve_decision. Defined.

Definition STATUS_value (s : STATUS) : Z :=
  match s with
  | ACCEPTED => 0
  | STARTED => 1
  | STORE_STATUS => 2
  | STORE_AND_UPDATE_STATUS => 3
  | DONE_STATUS => 4
  | ERROR_STATUS => 5
  end.

(** [a < b] and [a >= b] on members. *)
Definition STATUS_lt (a b : STATUS) : bool := (STATUS_value a <? STATUS_value b)%Z.
Definition STATUS_ge (a b : STATUS) : bool := (STATUS_value b <=? STATUS_value a)%Z.

(** [STATUS[name]]: the member of that name, [None] for the [KeyError] of a
    name that is not a member.  DONE and ERROR are the spec's names of
    DONE_STATUS and ERROR_STATUS. *)
Definition STATUS_getitem (name : string) : option STATUS :=
  if String.eqb name "ACCEPTED" then Some ACCEPTED
  else if String.eqb name "STARTED" then Some STARTED
  else if String.eqb name "STORE_STATUS" then Some STORE_STATUS
  else if String.eqb name "STORE_AND_UPDATE_STATUS" then Some STORE_AND_UPDATE_STATUS
  else if String.eqb name "DONE_STATUS" then Some DONE_STATUS
  else if String.eqb name "DONE" then Some DONE_STATUS
  else if String.eqb name "ERROR_STATUS" then Some ERROR_STATUS
  else if String.eqb name "ERROR" then Some ERROR_STATUS
  else None.

(** The exception classes the executor raises or tells apart.  [Exception]
    stands for any class other than the four it names. *)
Inductive exn :=
| FileNotFoundError (uuid : string)
| ProcessException (msg : string)
| TimeoutError
| NoApplicableCode (msg : string) (code : Z)
| Exception (msg : string).

(** How a call ends: with a value, with an exception, or with the death of
    the process that runs it ([SIGABRT]). *)
Inductive outcome (A : Type) :=
| Val (a : A)
| Exc (e : exn)
| Abort.
Arguments Val {A} a.
Arguments Exc {A} e.
Arguments Abort {A}.

(** *** The status store and the working directories *)

(** Modelled from the spec: the type of a status record; the store backend
    that writes the records is not among the sources.  A record is the dict
    the code reads: [rec['status']] is the name of a [STATUS] member;
    timestamp, timeout and expiration are numbers of seconds, taken as
    rationals; a key that is missing is [None].  The record's ['uuid'] is the
    key it is stored under. *)
Record Rec := mkRec {
  rec_status : option string;
  rec_timestamp : option Q;
  rec_timeout : option Q;
  rec_expiration : option Q;
  rec_pinned : option bool;
}.

(** The log store's records by uuid, and the directories that exist under
    the configured [workdir] root, by name: [os.path.join(rootdir, uuid_str)]
    is the directory named [uuid_str]. *)
Record State := mkState {
  records : gmap string Rec;
  workdirs : gset string;
}.

(** [config.get_config('server')]: of the keys the two functions read,
    [cfg.getint('response_expiration')]. *)
Record Config := mkConfig {
  response_expiration : Z;
}.

(** [STATUS[rec['status']] < STATUS.DONE_STATUS]; [None] is the [KeyError]
    of a missing key or of a name that is not a member. *)
Definition status_lt_done (rec : Rec) : option bool :=
  name ← rec_status rec;
  s ← STATUS_getitem name;
  Some (STATUS_lt s DONE_STATUS).

(** The block both [delete_results] and [_clean_processes] end with:
    [if os.path.isdir(workdir): shutil.rmtree(workdir)], then
    [logstore.delete_response(uuid_str)].  [rmtree] is taken to succeed; were
    it to raise, the code logs the error and still deletes the record. *)
Definition clean_response (uuid_str : string) (st : State) : State :=
  mkState (delete uuid_str (records st))
          (if bool_decide (uuid_str ∈ workdirs st)
           then workdirs st ∖ {[uuid_str]} else workdirs st).

(** [PoolExecutor.delete_results]. *)
Definition delete_results (uuid : string) (st : State) : outcome bool * State :=
  match records st !! uuid with
  | None => (Exc (FileNotFoundError uuid), st)
  | Some rec =>
      match status_lt_done rec with
      | Some true => (Val false, st)
      | Some false | None => (Val true, clean_response uuid st)
      end
  end.

(** Python's [int] on a number: the fraction is dropped (truncation toward
    zero). *)
Definition int (x : Q) : Z := Z.quot (Qnum x) (Zpos (Qden x)).

(** [(now_ts - int(timestamp)) >= bound], with [now_ts] the clock reading
    [datetime.utcnow().timestamp()]. *)
Definition elapsed_ge (now_ts timestamp bound : Q) : bool :=
  Qle_bool bound (now_ts - inject_Z (int timestamp)).

(** The [try] block of the loop body of [_clean_processes]: [None] is its
    [continue], [Some dangling] falls through with that value of
    [dangling]. *)
Definition dangling_check (now_ts : Q) (rec : Rec) : option bool :=
  match rec_timestamp rec with
  | None => Some true
  | Some timestamp =>
      match status_lt_done rec with
      | Some true =>
          let dangling :=
            match rec_timeout rec with
            | None => true
            | Some timeout => elapsed_ge now_ts timestamp timeout
            end in
          if dangling then Some true else None
      | Some false | None => Some false
      end
  end.

(** The loop body of [_clean_processes] for [(_, rec)] with
    [rec['uuid'] = uuid_str]. *)
Definition clean_record (cfg : Config) (now_ts : Q) (st : State)
    (item : string * Rec) : State :=
  let '(uuid_str, rec) := item in
  match dangling_check now_ts rec with
  | None => st
  | Some dangling =>
      let expiration :=
        default (inject_Z (response_expiration cfg)) (rec_expiration rec) in
      let notpinned := negb (default false (rec_pinned rec)) in
      if notpinned &&
           (dangling ||
              match rec_timestamp rec with
              | Some timestamp => elapsed_ge now_ts timestamp expiration
              | None => false (* not reached: [dangling] is true *)
              end)
      then clean_response uuid_str st
      else st
  end.

(** [PoolExecutor._clean_processes]: the loop over the snapshot
    [list(logstore.records)]. *)
Definition _clean_processes (cfg : Config) (now_ts : Q) (st : State) : State :=
  fold_left (clean_record cfg now_ts) (map_to_list (records st)) st.

(** *** Requests, responses and the calls a task makes *)

(** [wps_response.document]: the lxml tree, or the bytes
    [lxml.etree.tostring] renders from it. *)
Inductive Document :=
| Element (xml : string)
| Bytes (xml : string).

(** [lxml.etree.tostring(document, pretty_print=True)]. *)
Definition tostring (d : Document) : Document :=
  match d with
  | Element xml => Bytes xml
  | Bytes xml => Bytes xml
  end.

Record WPSProcess := mkProcess {
  identifier : string;
  title : string;
  workdir : string;
  process_uuid : option string;
}.

(** The fields of a [WPSResponse] the executor reads or writes. *)
Record WPSResponse := mkResponse {
  uuid : string;
  status : STATUS;
  store : bool;
  document : Document;
  process : WPSProcess;
}.

Record WPSRequest := mkRequest {
  timeout : Z;
}.

Inductive signal := SIGABRT.

(** The calls a task or the controller makes on its surroundings, in the
    order they are made. *)
Inductive event :=
| Chdir (dir : string)
| UpdateStatus (message : string) (percent : option Z) (status : option STATUS)
| TimerStart (interval : Z)
| TimerCancel
| ContextEnter
| ContextExit
| HandlerCall
| LogError (text : string)
| Kill (sig : signal)
| LogRequest (uuid : string)
| ApplyAsync (is_async : bool) (timeout : Z).

(** A computation on a response object: the calls it makes, the response it
    leaves, and how it ends. *)
Definition M (A : Type) : Type :=
  WPSResponse → list event * WPSResponse * outcome A.

#[export] Instance M_ret : MRet M := λ A a r, ([], r, Val a).

#[export] Instance M_bind : MBind M := λ A B f m r,
  let '(t1, r1, o) := m r in
  match o with
  | Val a => let '(t2, r2, o2) := f a r1 in (t1 ++ t2, r2, o2)
  | Exc e => (t1, r1, Exc e)
  | Abort => (t1, r1, Abort)
  end.

Definition emit (e : event) : M unit := λ r, ([e], r, Val tt).

Definition get : M WPSResponse := λ r, ([], r, Val r).

Definition modify (f : WPSResponse → WPSResponse) : M unit :=
  λ r, ([], f r, Val tt).

(** [os.kill(os.getpid(), sig)] with a signal that ends the process. *)
Definition os_kill (sig : signal) : M unit := λ r, ([Kill sig], r, Abort).

(** *** A task under its timer *)

(** The worker's [threading.Timer(interval, callback, args)]: the callback
    with its arguments, and the number of calls the task still makes before
    the timer fires; [None] while the timer is not known to fire before it
    is cancelled.  The timer runs its callback in a thread of its own, on the
    response object the task works on; the callback is taken to run to its
    end before the task makes its next call. *)
Record Timer := mkTimer {
  callback : M unit;
  fires_in : option nat;
}.

(** A computation of the task: the state is the response object and the
    timer that is armed, [None] when there is none. *)
Definition T (A : Type) : Type :=
  option Timer → WPSResponse →
  list event * WPSResponse * option Timer * outcome A.

#[export] Instance T_ret : MRet T := λ A a tm r, ([], r, tm, Val a).

#[export] Instance T_bind : MBind T := λ A B f m tm r,
  let '(t1, r1, tm1, o) := m tm r in
  match o with
  | Val a => let '(t2, r2, tm2, o2) := f a tm1 r1 in (t1 ++ t2, r2, tm2, o2)
  | Exc e => (t1, r1, tm1, Exc e)
  | Abort => (t1, r1, tm1, Abort)
  end.

(** Reading or assigning a field of the response object; no timer fires
    in between. *)
Definition lift {A} (m : M A) : T A :=
  λ tm r, let '(t1, r1, o1) := m r in (t1, r1, tm, o1).

(** One call of the task.  A timer that is due fires before the call is
    made: its callback runs, and the task goes on to its call only when the
    callback has left the process alive. *)
Definition call {A} (m : M A) : T A :=
  λ tm r,
    match tm with
    | Some (mkTimer cb (Some O)) =>
        let '(t1, r1, o1) := cb r in
        match o1 with
        | Abort => (t1, r1, None, Abort)
        | Val _ | Exc _ =>
            let '(t2, r2, o2) := m r1 in (t1 ++ t2, r2, None, o2)
        end
    | Some (mkTimer cb (Some (S n))) =>
        let '(t1, r1, o1) := m r in (t1, r1, Some (mkTimer cb (Some n)), o1)
    | Some (mkTimer _ None) | None =>
        let '(t1, r1, o1) := m r in (t1, r1, tm, o1)
    end.

(** [timer = Timer(interval, cb, args); timer.start()]. *)
Definition timer_start (interval : Z) (cb : M unit) : T unit :=
  λ tm r, ([TimerStart interval], r, Some (mkTimer cb None), Val tt).

(** [timer.cancel()]: a call like any other, after which no timer is
    armed. *)
Definition timer_cancel : T unit :=
  λ tm r,
    let '(t1, r1, _, o1) := call (emit TimerCancel) tm r in (t1, r1, None, o1).

Definition raise {A} (e : exn) : T A := λ tm r, ([], r, tm, Exc e).

(** [try: body  except <classes> as e: handler e]: [handler e] is [None] for
    a class the clause does not name. *)
Definition try_except {A} (body : T A) (handler : exn → option (T A)) : T A :=
  λ tm r,
    let '(t1, r1, tm1, o) := body tm r in
    match o with
    | Exc e =>
        match handler e with
        | Some k =>
            let '(t2, r2, tm2, o2) := k tm1 r1 in (t1 ++ t2, r2, tm2, o2)
        | None => (t1, r1, tm1, Exc e)
        end
    | Val _ | Abort => (t1, r1, tm1, o)
    end.

(** [try: body  finally: fin].  Nothing runs in a process that was killed. *)
Definition try_finally {A} (body : T A) (fin : T unit) : T A :=
  λ tm r,
    let '(t1, r1, tm1, o) := body tm r in
    match o with
    | Abort => (t1, r1, tm1, Abort)
    | Val _ | Exc _ =>
        let '(t2, r2, tm2, o2) := fin tm1 r1 in
        match o2 with
        | Val _ => (t1 ++ t2, r2, tm2, o)
        | Exc e => (t1 ++ t2, r2, tm2, Exc e)
        | Abort => (t1 ++ t2, r2, tm2, Abort)
        end
    end.

(** [with logfile_context(workdir, 'processing'), memory_logger(wps_response):
    body]. *)
Definition with_context {A} (body : T A) : T A :=
  call (emit ContextEnter);; try_finally body (call (emit ContextExit)).

(** How a handler call ends. *)
Inductive ending :=
| Returning
| Raising (e : exn).

(** What a handler does when it is called under the worker's timer.  The
    timeout is taken to be longer than the task needs to reach the call.
    - [Returns], [Raises e]: the call ends, early enough for the task to
      cancel the timer;
    - [Overruns]: the call is still running when the timer fires;
    - [EndsLate how calls]: the call ends, so late that the timer fires
      after [calls] more calls of the task, if it is armed until then. *)
Inductive behaviour :=
| Returns
| Raises (e : exn)
| Overruns
| EndsLate (how : ending) (calls : nat).

(** A handler mutates the response it is given. *)
Definition Handler : Type := WPSRequest → WPSResponse → WPSResponse * behaviour.

(** The timer when the handler call has ended [calls] calls before it
    fires. *)
Definition due_in (calls : nat) (tm : option Timer) : option Timer :=
  match tm with
  | Some (mkTimer cb _) => Some (mkTimer cb (Some calls))
  | None => None
  end.

(** [handler(wps_request, wps_response)].  A call that never ends, with no
    timer armed, is given as a process that does not go on. *)
Definition call_handler (handler : Handler) (wps_request : WPSRequest)
    : T unit :=
  λ tm r,
    let '(r1, b) := handler wps_request r in
    match b with
    | Returns => ([HandlerCall], r1, tm, Val tt)
    | Raises e => ([HandlerCall], r1, tm, Exc e)
    | Overruns =>
        match tm with
        | Some (mkTimer cb _) =>
            let '(t2, r2, _) := cb r1 in (HandlerCall :: t2, r2, None, Abort)
        | None => ([HandlerCall], r1, None, Abort)
        end
    | EndsLate Returning calls => ([HandlerCall], r1, due_in calls tm, Val tt)
    | EndsLate (Raising e) calls => ([HandlerCall], r1, due_in calls tm, Exc e)
    end.

(** The response with its document rendered to bytes:
    [wps_response.document = lxml.etree.tostring(wps_response.document,
    pretty_print=True)]. *)
Definition serialized (r : WPSResponse) : WPSResponse :=
  mkResponse (uuid r) (status r) (store r) (tostring (document r)) (process r).

(** The response as [execute] hands it to the pool:
    [process.uuid = wps_response.uuid] and
    [wps_response.store = (wps_response.status >= STATUS.STORE_STATUS)]. *)
Definition submitted (r : WPSResponse) : WPSResponse :=
  mkResponse (uuid r) (status r) (STATUS_ge (status r) STORE_STATUS) (document r)
    (mkProcess (identifier (process r)) (title (process r))
       (workdir (process r)) (Some (uuid r))).

(** An [update_status] that sets the status of the response when one is
    given, for the examples. *)
Definition set_status (msg : string) (percent : option Z) (st : option STATUS)
    (r : WPSResponse) : WPSResponse :=
  mkResponse (uuid r) (default (status r) st) (store r) (document r) (process r).

(** What is left of [execute]: the calls made in the controller, the calls
    made by the task in its worker, and the value returned or the exception
    raised. *)
Record Execution := mkExecution {
  controller : list event;
  worker : list event;
  result : outcome (option WPSResponse);
}.

Section response_methods.

(** [WPSResponse.update_status] is not among the sources.  What a call
    leaves of the response object is a parameter; the call itself is recorded with its
    arguments, [None] for an argument that is not passed or is [None]. *)
Variable update : string → option Z → option STATUS → WPSResponse → WPSResponse.

Definition update_status (msg : string) (percent : option Z)
    (st : option STATUS) : M unit :=
  modify (update msg percent st);;
  emit (UpdateStatus msg percent st).

(** [_timeout_kill]. *)
Definition _timeout_kill (is_async : bool) : M unit :=
  r ← get;
  emit (LogError ("Timeout occured in worker process "
                    +:+ identifier (process r) +:+ ": " +:+ uuid r));;
  update_status "Timeout Error" None (Some ERROR_STATUS);;
  os_kill SIGABRT.

(** [PoolExecutor._run_process]. *)
Definition _run_process (handler : Handler) (wps_request : WPSRequest)
    (is_async : bool) (timeout : Z) : M (option WPSResponse) :=
  λ wps_response,
    let task : T (option WPSResponse) :=
      r ← lift get;
      call (emit (Chdir (workdir (process r))));;
      call (update_status "Task started" (Some 0%Z) None);;
      timer_start timeout (_timeout_kill is_async);;
      try_finally
        (try_except
           (with_context
              (call_handler handler wps_request;;
               call (update_status "Task finished" (Some 100%Z)
                       (Some DONE_STATUS))))
           (λ e,
              match e with
              | ProcessException msg =>
                  Some (call (update_status msg None (Some ERROR_STATUS));;
                        if negb is_async then raise e else mret tt)
              | _ => None
              end))
        timer_cancel;;
      if negb is_async then
        lift (modify serialized);;
        r ← lift get;
        mret (Some r)
      else mret None in
    let '(calls, r, _, out) := task None wps_response in
    (calls, r, out).

(** [await asyncio.wait_for(future, timeout)] on the future that the
    callbacks of [apply_async] resolve.  [task] is how [_run_process] ended
    in the worker: the pool calls [success_cbk] with its value or [_on_error]
    with its exception, and calls neither for a task whose worker was
    killed.  [in_time] tells whether the call comes before [wait_for] gives
    up. *)
Definition wait_for (in_time : bool) (task : outcome (option WPSResponse))
    : outcome (option WPSResponse) :=
  match task with
  | Val response => if in_time then Val response else Exc TimeoutError
  | Exc exc => if in_time then Exc exc else Exc TimeoutError
  | Abort => Exc TimeoutError
  end.

(** The two [_on_error] callbacks of [execute]. *)
Definition _on_error (is_async : bool) (exc : exn) : list event :=
  match exc with
  | ProcessException _ =>
      if is_async then
        [LogError "Uncaught Process Exception";
         UpdateStatus "Internal error" None (Some ERROR_STATUS)]
      else []
  | _ =>
      [LogError "Uncaught Process Exception";
       UpdateStatus "Internal error" None (Some ERROR_STATUS)]
  end.

(** [PoolExecutor.execute], with the pool in place.  The task runs
    [_run_process] in a worker, on its copy of the response. *)
Definition execute (handler : Handler) (in_time : bool)
    (wps_request : WPSRequest) (wps_response : WPSResponse) : Execution :=
  let wps_response := submitted wps_response in
  let timeout := timeout wps_request in
  if bool_decide (status wps_response = STORE_AND_UPDATE_STATUS) then
    let '(t0, wps_response, _) :=
      update_status "Task accepted" None None wps_response in
    let '(tw, _, task) :=
      _run_process handler wps_request true timeout wps_response in
    mkExecution
      (LogRequest (uuid wps_response) :: t0 ++ ApplyAsync true timeout ::
         match task with Exc exc => _on_error true exc | _ => [] end)
      tw
      (Val (Some wps_response))
  else
    let '(tw, _, task) :=
      _run_process handler wps_request false timeout wps_response in
    mkExecution
      (LogRequest (uuid wps_response) :: ApplyAsync false timeout ::
         match task with Exc exc => _on_error false exc | _ => [] end)
      tw
      match wait_for in_time task with
      | Exc TimeoutError => Exc (NoApplicableCode "Execute Timeout" 424)
      | Exc (ProcessException _) => Exc (NoApplicableCode "Process error" 424)
      | awaited => awaited
      end.

End response_methods.

(** *** The cleanup rule in the spec's words *)

(** Status non-terminal: a member strictly below DONE. *)
Definition nonterminal (rec : Rec) : bool :=
  match status_lt_done rec with
  | Some true => true
  | _ => false
  end.

Definition spec_pinned (rec : Rec) : bool := default false (rec_pinned rec).

(** [record.expiration] if present, else the configured default. *)
Definition expiration_of (cfg : Config) (rec : Rec) : Q :=
  default (inject_Z (response_expiration cfg)) (rec_expiration rec).

(** dangling = (timestamp missing) OR (status non-terminal AND (timeout
    missing OR now - timestamp >= timeout)). *)
Definition spec_dangling (now_ts : Q) (rec : Rec) : bool :=
  match rec_timestamp rec with
  | None => true
  | Some timestamp =>
      nonterminal rec &&
        match rec_timeout rec with
        | None => true
        | Some timeout => Qle_bool timeout (now_ts - timestamp)
        end
  end.

(** expired = now - timestamp >= (record.expiration if present, else the
    configured default). *)
Definition spec_expired (cfg : Config) (now_ts : Q) (rec : Rec) : bool :=
  match rec_timestamp rec with
  | None => false
  | Some timestamp => Qle_bool (expiration_of cfg rec) (now_ts - timestamp)
  end.

(** The rule as the spec words it: not pinned and (dangling or expired). *)
Definition spec_deletes (cfg : Config) (now_ts : Q) (rec : Rec) : bool :=
  negb (spec_pinned rec) && (spec_dangling now_ts rec || spec_expired cfg now_ts rec).

(** *** The cleanup rule of the loop *)

(** dangling, with the timestamp truncated to whole seconds:
    (timestamp missing) OR (status non-terminal AND (timeout missing OR
    now - int(timestamp) >= timeout)). *)
Definition dangling (now_ts : Q) (rec : Rec) : bool :=
  match rec_timestamp rec with
  | None => true
  | Some timestamp =>
      nonterminal rec &&
        match rec_timeout rec with
        | None => true
        | Some timeout => elapsed_ge now_ts timestamp timeout
        end
  end.

(** expired, with the timestamp truncated to whole seconds:
    now - int(timestamp) >= (record.expiration if present, else the
    configured default). *)
Definition expired (cfg : Config) (now_ts : Q) (rec : Rec) : bool :=
  match rec_timestamp rec with
  | None => false
  | Some timestamp => elapsed_ge now_ts timestamp (expiration_of cfg rec)
  end.

(** The rule the loop follows: not pinned and (dangling or (not non-terminal
    and expired)). *)
Definition deletes (cfg : Config) (now_ts : Q) (rec : Rec) : bool :=
  negb (spec_pinned rec) &&
    (dangling now_ts rec || (negb (nonterminal rec) && expired cfg now_ts rec)).

(** Whether a snapshot has an entry under the key [uuid] that the loop
    deletes. *)
Definition deleted_in (cfg : Config) (now_ts : Q) (uuid : string)
    (l : list (string * Rec)) : bool :=
  existsb (λ item, bool_decide (item.1 = uuid) && deletes cfg now_ts item.2) l.

End PoolExecutor.

(** ** supervisor.py: the frames of a run of the loop *)

Module Channel.

(** The frames the loop receives in a run, in order. *)
Definition received (es : list Supervisor.event) : list Client.frame :=
  omap (λ e, match e with
             | Supervisor.Recv pid notif => Some (pid, notif)
             | Supervisor.RecvMalformed | Supervisor.Expire _ => None
             end) es.

(** The pids of the BUSY frames the loop receives in a run. *)
Definition busy_pids (es : list Supervisor.event) : list Z :=
  omap (λ e, match e with
             | Supervisor.Recv pid notif =>
                 if String.eqb notif "BUSY" then Some pid else None
             | Supervisor.RecvMalformed | Supervisor.Expire _ => None
             end) es.

(** Every BUSY frame of the run arrives for a pid that is not in the table
    at that point. *)
Fixpoint paired_run (s : Supervisor.t) (es : list Supervisor.event) : Prop :=
  match es with
  | [] => True
  | e :: es' => Supervisor.paired s e ∧ paired_run (Supervisor.step s e) es'
  end.

(** No pending timer has [kill(pid)] for callback. *)
Definition no_timer_for (pid : Z) (s : Supervisor.t) : Prop :=
  ∀ h delay, Supervisor.scheduled s !! h ≠ Some (delay, pid).

End Channel.

(** ** executor.py: the periodic cleanup and the counts of status updates *)

Module Schedule.

(** [_run_cleanup], the task of [PoolExecutor.schedule_cleanup]: one call of
    [_clean_processes] after each sleep, at the clock readings [ticks], on
    the store the previous call has left.  The [except Exception] of the loop
    only logs. *)
Definition _run_cleanup (cfg : PoolExecutor.Config) (ticks : list Q)
    (st : PoolExecutor.State) : PoolExecutor.State :=
  fold_left (λ st now_ts, PoolExecutor._clean_processes cfg now_ts st) ticks st.

(** The calls of [update_status] with [STATUS.ERROR_STATUS], and those with
    [STATUS.DONE_STATUS], among the calls an execution made. *)
Definition is_update_to (st : PoolExecutor.STATUS) (e : PoolExecutor.event) : bool :=
  match e with
  | PoolExecutor.UpdateStatus _ _ (Some st') =>
      @bool_decide (st' = st) (PoolExecutor.STATUS_eq_dec st' st)
  | _ => false
  end.

Definition updates_to (st : PoolExecutor.STATUS) (calls : list PoolExecutor.event) : nat :=
  length (List.filter (is_update_to st) calls).

End Schedule.

(** ** executor.py: the process registry of [PoolExecutor] *)

Module Processes.

(** [UnknownProcessError] and [StorageNotFound], the two subclasses of
    [ExecutorError]. *)
Inductive ExecutorError :=
| UnknownProcessError (ident : string)
| StorageNotFound (name : string).

(** [self.processes], a Python dict: the keys in the order of their first
    insertion, each with the value last stored under it. *)
Definition dict : Type := list (string * PoolExecutor.WPSProcess).

(** [d[k] = v]. *)
Fixpoint setitem (k : string) (v : PoolExecutor.WPSProcess) (d : dict) : dict :=
  match d with
  | [] => [(k, v)]
  | (k', v') :: d' =>
      if String.eqb k' k then (k', v) :: d' else (k', v') :: setitem k v d'
  end.

(** [d[k]]; [None] is the [KeyError]. *)
Fixpoint getitem (k : string) (d : dict) : option PoolExecutor.WPSProcess :=
  match d with
  | [] => None
  | (k', v') :: d' => if String.eqb k' k then Some v' else getitem k d'
  end.

(** [PoolExecutor.install_processes]:
    [self.processes = { p.identifier: p for p in processes }]; what was
    installed before is dropped. *)
Definition install_processes (processes : list PoolExecutor.WPSProcess)
    (installed : dict) : dict :=
  fold_left (λ d p, setitem (PoolExecutor.identifier p) p d) processes [].

(** [PoolExecutor.list_processes]: [self.processes.values()]. *)
Definition list_processes (installed : dict) : list PoolExecutor.WPSProcess :=
  installed.*2.

(** [PoolExecutor.get_process]. *)
Definition get_process (ident : string) (installed : dict)
    : PoolExecutor.WPSProcess + ExecutorError :=
  match getitem ident installed with
  | Some p => inl p
  | None => inr (UnknownProcessError ident)
  end.

(** A dict as the comprehension builds it: no key twice, and each process
    under its own identifier. *)
Definition well_keyed (d : dict) : Prop :=
  NoDup d.*1 ∧ ∀ k p, (k, p) ∈ d → PoolExecutor.identifier p = k.

End Processes.

(** * Properties *)

(** ** The worker-side notifier *)

Lemma alternation_snoc pid busy n :
  Client.alternation pid busy (S n) =
  Client.alternation pid busy n ++
    [(pid, if Nat.even n then (if busy then "DONE" else "BUSY")
           else (if busy then "BUSY" else "DONE"))].
Proof.
  revert busy. induction n as [|n IH]; intros busy.
  - reflexivity.
  - change (Client.alternation pid busy (S (S n)))
      with ((pid, if busy then "DONE" else "BUSY")
              :: Client.alternation pid (negb busy) (S n)).
    rewrite IH. cbn [Client.alternation app].
    rewrite Nat.even_succ, <- Nat.negb_even.
    destruct busy, (Nat.even n); reflexivity.
Qed.

Section client_invariant.

Variable pid : Z.

Lemma alternation_length busy n :
  length (Client.alternation pid busy n) = n.
Proof.
  revert busy. induction n as [|n IH]; intros busy; cbn; [done|].
  by rewrite IH.
Qed.

Lemma client_inv_init : Client.invariant pid (Client.init pid).
Proof. exists 0%nat. by cbn. Qed.

Lemma client_inv_step c k : Client.invariant pid c → Client.invariant pid (Client.step c k).
Proof.
  intros (n & Hpid & Hsent & Hbusy).
  destruct c as [p b fs]; cbn in *; subst p.
  destruct k; cbn; unfold Client.notify_busy, Client.notify_done, Client._send;
    cbn; destruct b; cbn.
  - by exists n.
  - exists (S n). split_and!; [done| |].
    + rewrite alternation_snoc, <- Hsent.
      rewrite <- Nat.negb_odd, <- Hbusy. done.
    + rewrite Nat.odd_succ, <- Nat.negb_odd, <- Hbusy. done.
  - exists (S n). split_and!; [done| |].
    + rewrite alternation_snoc, <- Hsent.
      rewrite <- Nat.negb_odd, <- Hbusy. done.
    + rewrite Nat.odd_succ, <- Nat.negb_odd, <- Hbusy. done.
  - by exists n.
Qed.

Lemma client_inv_run ks c : Client.invariant pid c → Client.invariant pid (Client.run ks c).
Proof.
  revert c. induction ks as [|k ks IH]; intros c Hc; [done|].
  cbn. apply IH. by apply client_inv_step.
Qed.

End client_invariant.

(** C9.  Whatever the state of the notifier, [notify_busy] hands exactly one
    BUSY frame to the socket when the notifier is not busy and none when it
    is, [notify_done] hands exactly one DONE frame when it is busy and none
    when it is not; and after any sequence of calls on a fresh notifier the
    frames sent are BUSY, DONE, BUSY, DONE, ... (the notifier being busy
    exactly after an odd number of frames). *)
Theorem notifier_alternates (pid : Z) (c : Client.t) (ks : list Client.call) :
  Client.sent (Client.notify_busy c) =
    Client.sent c ++ (if Client._busy c then [] else [(Client._pid c, "BUSY")]) ∧
  Client.sent (Client.notify_done c) =
    Client.sent c ++ (if Client._busy c then [(Client._pid c, "DONE")] else []) ∧
  Client._busy (Client.notify_busy c) = true ∧
  Client._busy (Client.notify_done c) = false ∧
  let c' := Client.run ks (Client.init pid) in
  Client.sent c' = Client.alternation pid false (length (Client.sent c')) ∧
  Client._busy c' = Nat.odd (length (Client.sent c')).
Proof.
  split_and!.
  - destruct c as [p [] fs]; cbn; [by rewrite app_nil_r | done].
  - destruct c as [p [] fs]; cbn; [done | by rewrite app_nil_r].
  - by destruct c as [p [] fs].
  - by destruct c as [p [] fs].
  - cbn zeta.
    destruct (client_inv_run pid ks _ (client_inv_init pid)) as (n & _ & Hs & Hb).
    split.
    + rewrite Hs at 2. by rewrite alternation_length.
    + by rewrite Hs, alternation_length.
Qed.

(** ** The supervisor's kill-timers *)

Section supervisor.

Import Supervisor.

(** A DONE for a pid that is not in the table changes nothing. *)
Lemma done_unknown_noop pid s :
  _busy s !! pid = None → on_frame pid "DONE" s = s.
Proof. intros H. unfold on_frame. cbn. by rewrite H. Qed.

(** A DONE for a pid in the table cancels the handle stored there and drops
    the entry. *)
Lemma done_cancels pid h s :
  _busy s !! pid = Some h →
  scheduled (on_frame pid "DONE" s) !! h = None ∧
  _busy (on_frame pid "DONE" s) !! pid = None.
Proof.
  intros H. unfold on_frame. cbn. rewrite H. cbn.
  split; apply lookup_delete_eq.
Qed.

Lemma handles_below_step s e : handles_below s → handles_below (step s e).
Proof.
  intros Hs h x. destruct e as [pid notif | | h0]; cbn.
  - unfold on_frame.
    destruct (String.eqb notif "BUSY"); [|destruct (String.eqb notif "DONE")].
    + cbn. intros [[-> _] | [_ Hx]]%lookup_insert_Some; [lia|].
      apply Hs in Hx. lia.
    + destruct (_busy s !! pid); cbn; [|by apply Hs].
      intros [_ Hx]%lookup_delete_Some. by apply Hs in Hx.
    + by apply Hs.
  - by apply Hs.
  - unfold on_timer. destruct (scheduled s !! h0) as [[d pid]|]; [|by apply Hs].
    unfold kill. cbn. destruct (_busy s !! pid); cbn;
      intros [_ Hx]%lookup_delete_Some; by apply Hs in Hx.
Qed.

Lemma handles_below_run es s : handles_below s → handles_below (run es s).
Proof.
  revert s. induction es as [|e es IH]; intros s Hs; [done|].
  cbn. apply IH. by apply handles_below_step.
Qed.

(** The table never holds a handle that is not pending. *)
Lemma table_pending_step s e :
  handles_below s → table_pending s → table_pending (step s e).
Proof.
  intros Hlt Hs pid h. destruct e as [p notif | | h0]; cbn.
  - unfold on_frame.
    destruct (String.eqb notif "BUSY"); [|destruct (String.eqb notif "DONE")].
    + cbn. intros [[-> <-] | [Hne Hb]]%lookup_insert_Some.
      * exists (_timeout s). apply lookup_insert_eq.
      * destruct (Hs _ _ Hb) as [d Hd]. exists d.
        rewrite lookup_insert_ne; [done|]. apply Hlt in Hd. lia.
    + destruct (_busy s !! p) as [hp|] eqn:Hp; cbn; [|by apply Hs].
      intros [Hne Hb]%lookup_delete_Some.
      destruct (Hs _ _ Hb) as [d Hd]. exists d.
      rewrite lookup_delete_ne; [done|]. intros ->.
      destruct (Hs _ _ Hp) as [d' Hd']. congruence.
    + by apply Hs.
  - by apply Hs.
  - unfold on_timer. destruct (scheduled s !! h0) as [[d0 p0]|] eqn:H0; [|by apply Hs].
    unfold kill. cbn. destruct (_busy s !! p0) eqn:Hp0; cbn.
    + intros [Hne Hb]%lookup_delete_Some.
      destruct (Hs _ _ Hb) as [d Hd]. exists d.
      rewrite lookup_delete_ne; [done|]. congruence.
    + intros Hb. destruct (Hs _ _ Hb) as [d Hd]. exists d.
      rewrite lookup_delete_ne; [done|]. congruence.
Qed.

Lemma table_pending_run timeout es : table_pending (run es (init timeout)).
Proof.
  assert (H : ∀ s, handles_below s → table_pending s → table_pending (run es s)).
  { induction es as [|e es IH]; intros s Hlt Hs; [done|].
    cbn. apply IH; [by apply handles_below_step | by apply table_pending_step]. }
  apply H.
  - intros h x. cbn. by rewrite lookup_empty.
  - intros pid h. cbn. by rewrite lookup_empty.
Qed.

(** As long as every BUSY arrives for a pid that is not in the table, no
    timer is pending outside the table: each pid then has at most one
    pending kill-timer. *)
Lemma no_stale_step s e :
  table_pending s → no_stale s → paired s e → no_stale (step s e).
Proof.
  intros Ht Hs He h d pid. destruct e as [p notif | | h0]; cbn in *.
  - unfold on_frame. destruct (String.eqb_spec notif "BUSY") as [->|Hnb].
    + specialize (He eq_refl). cbn.
      intros [[<- [= <- <-]] | [Hne Hh]]%lookup_insert_Some.
      * apply lookup_insert_eq.
      * apply Hs in Hh. rewrite lookup_insert_ne; [done|]. congruence.
    + destruct (String.eqb notif "DONE"); [|by apply Hs].
      destruct (_busy s !! p) as [hp|] eqn:Hp; cbn; [|by apply Hs].
      intros [Hne Hh]%lookup_delete_Some. apply Hs in Hh.
      rewrite lookup_delete_ne; [done|]. congruence.
  - by apply Hs.
  - unfold on_timer. destruct (scheduled s !! h0) as [[d0 p0]|] eqn:H0; [|by apply Hs].
    unfold kill. cbn. rewrite (Hs _ _ _ H0). cbn.
    intros [Hne Hh]%lookup_delete_Some. apply Hs in Hh.
    rewrite lookup_delete_ne; [done|]. intros ->.
    apply Hs in H0. congruence.
Qed.

(** A BUSY for a pid whose timer is pending stores a new handle and leaves
    the old one pending. *)
Lemma busy_keeps_old_timer timeout es pid h :
  let s := run es (init timeout) in
  _busy s !! pid = Some h →
  is_Some (scheduled s !! h) →
  let s' := on_frame pid "BUSY" s in
  _busy s' !! pid = Some (next_handle s) ∧
  h ≠ next_handle s ∧
  scheduled s' !! h = scheduled s !! h ∧
  scheduled s' !! next_handle s = Some (_timeout s, pid).
Proof.
  intros s Hb [x Hx] s'.
  assert (Hlt : (h < next_handle s)%nat).
  { eapply (handles_below_run es (init timeout)); [|exact Hx].
    intros h' x'. cbn. by rewrite lookup_empty. }
  subst s'. unfold on_frame. cbn. split_and!.
  - apply lookup_insert_eq.
  - lia.
  - apply lookup_insert_ne. lia.
  - apply lookup_insert_eq.
Qed.

End supervisor.

(** C1, at the frames BUSY(7), BUSY(7) received by a supervisor with a
    timeout of 10 seconds.  The table then holds one handle for pid 7, the
    second one, but the loop holds two pending timers whose callback is
    kill(7): the first was replaced in the table without being cancelled.
    When it expires it removes the entry of the second timer and kills
    worker 7; the second timer is still pending, and its callback will find
    no entry to delete ([KeyError]).  A DONE(7), or [stop], cancels the
    second timer only. *)
Theorem busy_twice_leaves_stale_timer :
  let s := Supervisor.run [Supervisor.Recv 7 "BUSY"; Supervisor.Recv 7 "BUSY"]
             (Supervisor.init 10) in
  Supervisor._busy s !! 7%Z = Some 1%nat ∧
  Supervisor.pending_for 7 s !! 0%nat = Some (10%Z, 7%Z) ∧
  Supervisor.pending_for 7 s !! 1%nat = Some (10%Z, 7%Z) ∧
  size (Supervisor.pending_for 7 s) = 2%nat ∧
  let s' := Supervisor.step s (Supervisor.Expire 0) in
  (Supervisor.killed s' = [7%Z] ∧
   Supervisor._busy s' !! 7%Z = None ∧
   Supervisor.scheduled s' !! 1%nat = Some (10%Z, 7%Z) ∧
   Supervisor.kill 7 s' = None) ∧
  Supervisor.pending_for 7 (Supervisor.step s (Supervisor.Recv 7 "DONE")) =
    {[0%nat := (10%Z, 7%Z)]} ∧
  Supervisor.pending_for 7 (Supervisor.stop s) = {[0%nat := (10%Z, 7%Z)]}.
Proof. vm_compute. repeat split. Qed.

(** ** The cleanup loop *)

Section cleanup.

Import PoolExecutor.

Variable cfg : Config.
Variable now_ts : Q.

(** What the shared block leaves of the store and of the workdirs. *)
Lemma clean_response_spec uuid st :
  records (clean_response uuid st) !! uuid = None ∧
  (uuid ∉ workdirs (clean_response uuid st)) ∧
  (∀ other, other ≠ uuid →
     records (clean_response uuid st) !! other = records st !! other ∧
     (other ∈ workdirs (clean_response uuid st) ↔ other ∈ workdirs st)).
Proof.
  unfold clean_response. cbn. split_and!.
  - apply lookup_delete_eq.
  - case_bool_decide as Hin; [|done].
    intros [_ Hne]%elem_of_difference. apply Hne. by apply elem_of_singleton.
  - intros other Hne. split; [by apply lookup_delete_ne|].
    case_bool_decide as Hin; [|done].
    rewrite elem_of_difference, elem_of_singleton. tauto.
Qed.

(** The loop body deletes a record exactly when [deletes] says so. *)
Lemma clean_record_deletes st uuid_str rec :
  clean_record cfg now_ts st (uuid_str, rec) =
  if deletes cfg now_ts rec then clean_response uuid_str st else st.
Proof.
  unfold clean_record, deletes, dangling_check, dangling, expired,
    expiration_of, spec_pinned, nonterminal.
  destruct (rec_timestamp rec) as [timestamp|]; cbn.
  - destruct (status_lt_done rec) as [[]|]; cbn.
    + destruct (rec_timeout rec) as [timeout|]; cbn.
      * destruct (elapsed_ge now_ts timestamp timeout); cbn; [done|].
        by rewrite andb_false_r.
      * done.
    + done.
    + done.
  - done.
Qed.

Lemma fold_clean_records l st uuid :
  records (fold_left (clean_record cfg now_ts) l st) !! uuid =
    (if deleted_in cfg now_ts uuid l then None else records st !! uuid) ∧
  (uuid ∈ workdirs (fold_left (clean_record cfg now_ts) l st) ↔
     uuid ∈ workdirs st ∧ deleted_in cfg now_ts uuid l = false).
Proof.
  revert st. induction l as [|[u rec] l IH]; intros st.
  - cbn. tauto.
  - cbn [fold_left]. destruct (IH (clean_record cfg now_ts st (u, rec))) as [IHr IHw].
    rewrite IHr, IHw, clean_record_deletes. clear IHr IHw IH.
    unfold deleted_in. cbn [existsb fst snd].
    destruct (deletes cfg now_ts rec) eqn:Hd.
    + rewrite andb_true_r.
      destruct (clean_response_spec u st) as (Hgone & Hrm & Hother).
      case_bool_decide as Hu; cbn [orb].
      * rewrite <- Hu. rewrite Hgone. split; [by destruct (existsb _ l)|].
        split; [by intros [? _] | by intros [_ ?]].
      * destruct (Hother uuid) as [-> ->]; [done|]. done.
    + rewrite andb_false_r. done.
Qed.

Lemma deleted_in_snapshot (m : gmap string Rec) uuid rec :
  m !! uuid = Some rec →
  deleted_in cfg now_ts uuid (map_to_list m) = deletes cfg now_ts rec.
Proof.
  intros Hm. apply eq_true_iff_eq. unfold deleted_in.
  rewrite existsb_exists. split.
  - intros ([u r] & Hin & Hp). cbn in Hp.
    apply andb_true_iff in Hp as [Hu Hp]. apply bool_decide_eq_true in Hu.
    subst u. apply list_elem_of_In, elem_of_map_to_list in Hin.
    congruence.
  - intros Hd. exists (uuid, rec). split.
    + by apply list_elem_of_In, elem_of_map_to_list.
    + cbn. rewrite Hd. by rewrite bool_decide_eq_true_2.
Qed.

(** A tick of the loop, seen from one record of the store. *)
Lemma clean_processes_record st uuid rec :
  records st !! uuid = Some rec →
  records (_clean_processes cfg now_ts st) !! uuid =
    (if deletes cfg now_ts rec then None else Some rec) ∧
  (uuid ∈ workdirs (_clean_processes cfg now_ts st) ↔
     uuid ∈ workdirs st ∧ deletes cfg now_ts rec = false).
Proof.
  intros Hm. unfold _clean_processes.
  destruct (fold_clean_records (map_to_list (records st)) st uuid) as [Hr Hw].
  rewrite Hr, Hw, (deleted_in_snapshot _ _ _ Hm), Hm. done.
Qed.

Lemma elapsed_ge_true timestamp bound :
  elapsed_ge now_ts timestamp bound = true ↔
  (bound <= now_ts - inject_Z (int timestamp))%Q.
Proof. unfold elapsed_ge. apply Qle_bool_iff. Qed.

Lemma elapsed_ge_false timestamp bound :
  elapsed_ge now_ts timestamp bound = false ↔
  (now_ts - inject_Z (int timestamp) < bound)%Q.
Proof.
  rewrite <- not_true_iff_false, elapsed_ge_true. split.
  - apply Qnot_le_lt.
  - apply Qlt_not_le.
Qed.

End cleanup.

(** ** Cleanup: the claims *)

Section cleanup_claims.

Import PoolExecutor.

(** C2, as the code has it.  On a cleanup tick, a record of the snapshot is
    deleted, with its workdir, exactly when it is not pinned and either
    dangling or (not non-terminal and expired), where
    dangling = timestamp missing or (status non-terminal and (timeout missing
    or now - int(timestamp) >= timeout)) and expired = now - int(timestamp)
    >= (record.expiration if present, else the configured default); a record
    that is not deleted is left as it is.  A non-terminal record that is not
    dangling is kept even when it is past its expiration. *)
Theorem cleanup_deletes_iff (cfg : Config) (now_ts : Q) (st : State)
    (uuid : string) (rec : Rec) :
  records st !! uuid = Some rec →
  let st' := _clean_processes cfg now_ts st in
  let delete :=
    negb (spec_pinned rec) &&
      (dangling now_ts rec ||
         (negb (nonterminal rec) && expired cfg now_ts rec)) in
  (records st' !! uuid = None ↔ delete = true) ∧
  (records st' !! uuid = Some rec ↔ delete = false) ∧
  (uuid ∈ workdirs st' ↔ uuid ∈ workdirs st ∧ delete = false).
Proof.
  intros Hm st' delete.
  destruct (clean_processes_record cfg now_ts st uuid rec Hm) as [Hr Hw].
  fold st' in Hr, Hw. change (deletes cfg now_ts rec) with delete in Hr, Hw.
  rewrite Hr, Hw. destruct delete; intuition congruence.
Qed.

(** C3, as the code has it.  A record whose status is a member strictly
    below DONE, with a timestamp and a timeout such that
    now - int(timestamp) < timeout, is left in the store unchanged by a
    cleanup tick, and so is its workdir (whether the record is pinned or
    not). *)
Theorem cleanup_keeps_running (cfg : Config) (now_ts : Q) (st : State)
    (uuid : string) (rec : Rec) (name : string) (s : STATUS)
    (timestamp timeout : Q) :
  records st !! uuid = Some rec →
  rec_status rec = Some name →
  STATUS_getitem name = Some s →
  (STATUS_value s < STATUS_value DONE_STATUS)%Z →
  rec_timestamp rec = Some timestamp →
  rec_timeout rec = Some timeout →
  (now_ts - inject_Z (int timestamp) < timeout)%Q →
  let st' := _clean_processes cfg now_ts st in
  records st' !! uuid = Some rec ∧
  (uuid ∈ workdirs st' ↔ uuid ∈ workdirs st).
Proof.
  intros Hm Hname Hs Hlt Hts Hto Hrun st'.
  destruct (clean_processes_record cfg now_ts st uuid rec Hm) as [Hr Hw].
  fold st' in Hr, Hw.
  assert (Hd : deletes cfg now_ts rec = false).
  { unfold deletes, dangling, expired, nonterminal, status_lt_done.
    rewrite Hname, Hts, Hto. cbn. rewrite Hs. cbn.
    unfold STATUS_lt. rewrite (proj2 (Z.ltb_lt _ _) Hlt). cbn.
    rewrite (proj2 (elapsed_ge_false _ _ _) Hrun). cbn.
    apply andb_false_r. }
  rewrite Hd in Hr, Hw. split; [done | tauto].
Qed.

(** C4, as the code has it.  A record with a terminal status (a member at or
    above DONE), a timestamp and pinned = false is deleted by a cleanup tick,
    with its workdir, exactly when now - int(timestamp) >=
    (record.expiration if present, else the configured default): a terminal
    record whose own expiration is smaller than the default goes once its own
    expiration has elapsed. *)
Theorem cleanup_terminal_iff (cfg : Config) (now_ts : Q) (st : State)
    (uuid : string) (rec : Rec) (name : string) (s : STATUS) (timestamp : Q) :
  records st !! uuid = Some rec →
  rec_status rec = Some name →
  STATUS_getitem name = Some s →
  (STATUS_value DONE_STATUS <= STATUS_value s)%Z →
  default false (rec_pinned rec) = false →
  rec_timestamp rec = Some timestamp →
  let st' := _clean_processes cfg now_ts st in
  let expiration :=
    default (inject_Z (response_expiration cfg)) (rec_expiration rec) in
  (records st' !! uuid = None ↔
     (expiration <= now_ts - inject_Z (int timestamp))%Q) ∧
  (records st' !! uuid = Some rec ↔
     (now_ts - inject_Z (int timestamp) < expiration)%Q) ∧
  (uuid ∈ workdirs st' ↔
     uuid ∈ workdirs st ∧ (now_ts - inject_Z (int timestamp) < expiration)%Q).
Proof.
  intros Hm Hname Hs Hge Hpin Hts st' expiration.
  destruct (clean_processes_record cfg now_ts st uuid rec Hm) as [Hr Hw].
  fold st' in Hr, Hw.
  assert (Hd : deletes cfg now_ts rec = elapsed_ge now_ts timestamp expiration).
  { unfold deletes, dangling, expired, spec_pinned, nonterminal, status_lt_done.
    rewrite Hname, Hts, Hpin. cbn. rewrite Hs. cbn.
    unfold STATUS_lt. rewrite (proj2 (Z.ltb_ge _ _) Hge). done. }
  rewrite Hd in Hr, Hw. rewrite Hr, Hw.
  rewrite <- elapsed_ge_true, <- elapsed_ge_false.
  destruct (elapsed_ge now_ts timestamp expiration); intuition congruence.
Qed.

End cleanup_claims.

Section cleanup_examples.

Import PoolExecutor.

(** C2 as stated fails, on two counts.  First, a record with status STARTED,
    updated 100 seconds ago, with a timeout of 600 seconds and an expiration
    of 60 seconds, not pinned: it is not dangling and it is past its
    expiration, so the rule "not pinned and (dangling or expired)" deletes
    it; the loop reaches its [continue] and keeps the record and its
    workdir.  Second, a record with status DONE_STATUS and timestamp 1000.5,
    with an expiration of 100 seconds, at the clock reading 1100.25:
    now - timestamp = 99.75 is below the expiration, and the loop, which
    compares 1100.25 - int(1000.5) = 100.25, deletes the record. *)
Lemma cleanup_keeps_expired_running :
  (let rec := mkRec (Some "STARTED") (Some 1000%Q) (Some 600%Q) (Some 60%Q) (Some false) in
   let st := mkState {["job" := rec]} {["job"]} in
   let cfg := mkConfig 86400 in
   let st' := _clean_processes cfg 1100 st in
   spec_pinned rec = false ∧
   spec_dangling 1100 rec = false ∧
   spec_expired cfg 1100 rec = true ∧
   spec_deletes cfg 1100 rec = true ∧
   records st' !! "job" = Some rec ∧
   "job" ∈ workdirs st') ∧
  (let rec := mkRec (Some "DONE_STATUS") (Some 1000.5%Q) None (Some 100%Q) (Some false) in
   let st := mkState {["job" := rec]} {["job"]} in
   let cfg := mkConfig 86400 in
   let st' := _clean_processes cfg 1100.25 st in
   spec_deletes cfg 1100.25 rec = false ∧
   records st' !! "job" = None ∧
   "job" ∉ workdirs st').
Proof. split; split_and!; by vm_compute. Qed.

(** C3 as stated fails.  A record with status STARTED and timestamp 1000.5,
    with a timeout of 100 seconds, not pinned, at the clock reading 1100.25:
    now - timestamp = 99.75 < timeout, and the loop, which compares
    1100.25 - int(1000.5) = 100.25 with the timeout, takes the record for
    dangling and deletes it with its workdir. *)
Lemma cleanup_truncates_timestamp :
  let rec := mkRec (Some "STARTED") (Some 1000.5%Q) (Some 100%Q) None (Some false) in
  let st := mkState {["job" := rec]} {["job"]} in
  let st' := _clean_processes (mkConfig 86400) 1100.25 st in
  STATUS_getitem "STARTED" = Some STARTED ∧
  (STATUS_value STARTED < STATUS_value DONE_STATUS)%Z ∧
  (1100.25 - 1000.5 < 100)%Q ∧
  spec_pinned rec = false ∧
  records st' !! "job" = None ∧
  "job" ∉ workdirs st'.
Proof. split_and!; by vm_compute. Qed.

(** C4 as stated fails.  A record with status DONE_STATUS, updated 50 seconds
    ago, with an expiration of 10 seconds, not pinned, under a default
    expiration of 100 seconds: 50 < max(10, 100), and the loop deletes the
    record and its workdir.  And a record with status DONE_STATUS and
    timestamp 1000.5, with an expiration of 100 seconds, under the same
    default, at the clock reading 1100.25: now - timestamp = 99.75 <
    max(100, 100), and the loop, which compares 1100.25 - int(1000.5) =
    100.25, deletes the record. *)
Lemma cleanup_uses_own_expiration :
  (let rec := mkRec (Some "DONE_STATUS") (Some 1000%Q) None (Some 10%Q) (Some false) in
   let st := mkState {["job" := rec]} {["job"]} in
   let cfg := mkConfig 100 in
   let st' := _clean_processes cfg 1050 st in
   (1050 - 1000 < Qmax 10 (inject_Z (response_expiration cfg)))%Q ∧
   records st' !! "job" = None ∧
   "job" ∉ workdirs st') ∧
  (let rec := mkRec (Some "DONE_STATUS") (Some 1000.5%Q) None (Some 100%Q) (Some false) in
   let st := mkState {["job" := rec]} {["job"]} in
   let cfg := mkConfig 100 in
   let st' := _clean_processes cfg 1100.25 st in
   (1100.25 - 1000.5 < Qmax 100 (inject_Z (response_expiration cfg)))%Q ∧
   records st' !! "job" = None ∧
   "job" ∉ workdirs st').
Proof. split; split_and!; by vm_compute. Qed.

End cleanup_examples.

(** ** [delete_results] and records with a legacy status *)

Section delete_results.

Import PoolExecutor.

(** C5.  [delete_results uuid] raises [FileNotFoundError] when the store has
    no record for [uuid]; returns [False] and changes nothing when the status
    of the record names a [STATUS] member whose value is strictly below that
    of DONE_STATUS; and otherwise, that is when every member the status
    names has a value at or above that of DONE_STATUS, returns [True], after
    which the store has no record for [uuid] and no workdir of that name
    exists, whether or not one existed before; the other records and
    workdirs are as they were. *)
Theorem delete_results_spec (uuid : string) (st : State) :
  (records st !! uuid = None →
     delete_results uuid st = (Exc (FileNotFoundError uuid), st)) ∧
  (∀ rec name s,
     records st !! uuid = Some rec →
     rec_status rec = Some name →
     STATUS_getitem name = Some s →
     (STATUS_value s < STATUS_value DONE_STATUS)%Z →
     delete_results uuid st = (Val false, st)) ∧
  (∀ rec,
     records st !! uuid = Some rec →
     (∀ name s,
        rec_status rec = Some name →
        STATUS_getitem name = Some s →
        (STATUS_value DONE_STATUS <= STATUS_value s)%Z) →
     ∃ st',
       delete_results uuid st = (Val true, st') ∧
       records st' !! uuid = None ∧
       (uuid ∉ workdirs st') ∧
       (∀ other, other ≠ uuid →
          records st' !! other = records st !! other ∧
          (other ∈ workdirs st' ↔ other ∈ workdirs st))).
Proof.
  unfold delete_results. split_and!.
  - by intros ->.
  - intros rec name s -> Hname Hs Hlt. unfold status_lt_done.
    rewrite Hname. cbn. rewrite Hs. cbn. unfold STATUS_lt.
    by rewrite (proj2 (Z.ltb_lt _ _) Hlt).
  - intros rec -> Hterm. exists (clean_response uuid st).
    split; [|apply clean_response_spec].
    unfold status_lt_done.
    destruct (rec_status rec) as [name|]; cbn; [|done].
    destruct (STATUS_getitem name) as [s|] eqn:Hs; cbn; [|done].
    specialize (Hterm name s eq_refl Hs). unfold STATUS_lt.
    by rewrite (proj2 (Z.ltb_ge _ _) Hterm).
Qed.

(** C10.  A record whose status is not the name of a [STATUS] member is
    treated as terminal: [delete_results] deletes it and returns [True]; and
    the cleanup loop does not look at its timeout, so that with a timestamp
    it is deleted exactly when it is not pinned and now - int(timestamp) >=
    (record.expiration if present, else the configured default). *)
Theorem legacy_status_is_terminal (cfg : Config) (now_ts : Q) (st : State)
    (uuid : string) (rec : Rec) (name : string) :
  records st !! uuid = Some rec →
  rec_status rec = Some name →
  STATUS_getitem name = None →
  (delete_results uuid st = (Val true, clean_response uuid st) ∧
   records (clean_response uuid st) !! uuid = None ∧
   uuid ∉ workdirs (clean_response uuid st)) ∧
  ∀ timestamp,
    rec_timestamp rec = Some timestamp →
    let st' := _clean_processes cfg now_ts st in
    let expiration :=
      default (inject_Z (response_expiration cfg)) (rec_expiration rec) in
    (records st' !! uuid = None ↔
       default false (rec_pinned rec) = false ∧
       (expiration <= now_ts - inject_Z (int timestamp))%Q) ∧
    (uuid ∈ workdirs st' ↔
       uuid ∈ workdirs st ∧
       ¬ (default false (rec_pinned rec) = false ∧
          (expiration <= now_ts - inject_Z (int timestamp))%Q)).
Proof.
  intros Hm Hname Hs.
  assert (Hlt : status_lt_done rec = None).
  { unfold status_lt_done. rewrite Hname. cbn. by rewrite Hs. }
  split.
  - split; [|split; apply clean_response_spec].
    unfold delete_results. by rewrite Hm, Hlt.
  - intros timestamp Hts st' expiration.
    destruct (clean_processes_record cfg now_ts st uuid rec Hm) as [Hr Hw].
    fold st' in Hr, Hw.
    assert (Hd : deletes cfg now_ts rec =
                 negb (default false (rec_pinned rec)) &&
                   elapsed_ge now_ts timestamp expiration).
    { unfold deletes, dangling, expired, spec_pinned, nonterminal.
      by rewrite Hts, Hlt. }
    rewrite Hd in Hr, Hw. rewrite Hr, Hw, <- elapsed_ge_true.
    destruct (default false (rec_pinned rec)),
      (elapsed_ge now_ts timestamp expiration); cbn; intuition congruence.
Qed.

End delete_results.

(** ** The claims at concrete records *)

Section witnesses.

Import PoolExecutor.

(** A STARTED record last updated an hour ago with a timeout of a minute is
    dangling, and deleted. *)
Lemma cleanup_deletes_iff_witness :
  let rec := mkRec (Some "STARTED") (Some 1000%Q) (Some 60%Q) None (Some false) in
  let st := mkState {["job" := rec]} {["job"]} in
  let st' := _clean_processes (mkConfig 86400) 4600 st in
  records st !! "job" = Some rec ∧
  records st' !! "job" = None.
Proof.
  intros rec st st'.
  assert (Hm : records st !! "job" = Some rec) by (by vm_compute).
  split; [exact Hm|].
  apply (proj1 (cleanup_deletes_iff (mkConfig 86400) 4600 st "job" rec Hm)).
  by vm_compute.
Defined.

(** A STARTED record updated at 1000.5 with a timeout of 600 seconds stays at
    the clock reading 1100.25, though its expiration of 60 seconds has
    passed. *)
Lemma cleanup_keeps_running_witness :
  let rec := mkRec (Some "STARTED") (Some 1000.5%Q) (Some 600%Q) (Some 60%Q) (Some false) in
  let st := mkState {["job" := rec]} {["job"]} in
  let st' := _clean_processes (mkConfig 86400) 1100.25 st in
  records st' !! "job" = Some rec ∧ ("job" ∈ workdirs st' ↔ "job" ∈ workdirs st).
Proof.
  intros rec st st'.
  apply (cleanup_keeps_running (mkConfig 86400) 1100.25 st "job" rec
           "STARTED" STARTED 1000.5 600); by vm_compute.
Defined.

(** A DONE_STATUS record updated 50 seconds ago with an expiration of 10
    seconds is deleted, under a default of 100 seconds. *)
Lemma cleanup_terminal_iff_witness :
  let rec := mkRec (Some "DONE_STATUS") (Some 1000%Q) None (Some 10%Q) (Some false) in
  let st := mkState {["job" := rec]} {["job"]} in
  let st' := _clean_processes (mkConfig 100) 1050 st in
  records st' !! "job" = None.
Proof.
  intros rec st st'.
  apply (cleanup_terminal_iff (mkConfig 100) 1050 st "job" rec
           "DONE_STATUS" DONE_STATUS 1000); by vm_compute.
Defined.

(** Deleting the results of an unknown uuid, of a running job and of a job
    that is done. *)
Lemma delete_results_spec_witness :
  let running := mkRec (Some "STARTED") (Some 1000%Q) (Some 600%Q) None None in
  let finished := mkRec (Some "DONE_STATUS") (Some 900%Q) (Some 600%Q) None None in
  let st := mkState {["job" := running; "old" := finished]} {["job"; "old"]} in
  delete_results "gone" st = (Exc (FileNotFoundError "gone"), st) ∧
  delete_results "job" st = (Val false, st) ∧
  ∃ st',
    delete_results "old" st = (Val true, st') ∧
    records st' !! "old" = None ∧
    ("old" ∉ workdirs st') ∧
    records st' !! "job" = Some running ∧
    "job" ∈ workdirs st'.
Proof.
  intros running finished st.
  destruct (delete_results_spec "gone" st) as (Hnone & _ & _).
  destruct (delete_results_spec "job" st) as (_ & Hrun & _).
  destruct (delete_results_spec "old" st) as (_ & _ & Hdone).
  split_and!.
  - apply Hnone. by vm_compute.
  - apply (Hrun running "STARTED" STARTED); by vm_compute.
  - destruct (Hdone finished) as (st' & Hres & Hrec & Hdir & Hother).
    + by vm_compute.
    + intros name s [= <-] [= <-]. by vm_compute.
    + exists st'. split_and!; [exact Hres | exact Hrec | exact Hdir | |].
      * rewrite (proj1 (Hother "job" ltac:(discriminate))). by vm_compute.
      * apply (proj2 (Hother "job" ltac:(discriminate))). by vm_compute.
Defined.

(** A record whose status is the name of no member can be deleted. *)
Lemma legacy_status_is_terminal_witness :
  let rec := mkRec (Some "ProcessSucceeded") (Some 1000%Q) (Some 600%Q) None None in
  let st := mkState {["job" := rec]} {["job"]} in
  delete_results "job" st = (Val true, clean_response "job" st).
Proof.
  intros rec st.
  apply (legacy_status_is_terminal (mkConfig 86400) 1100 st "job" rec
           "ProcessSucceeded"); by vm_compute.
Defined.

End witnesses.

(** ** The execution envelope of a task *)

Section envelope.

Import PoolExecutor.

Variable update : string → option Z → option STATUS → WPSResponse → WPSResponse.

(** [_run_process] case by case: how the handler call ends, and when the
    timer fires. *)
Lemma run_process_cases (handler : Handler) (wps_request : WPSRequest)
    (is_async : bool) (timeout : Z) (r : WPSResponse) :
  let before :=
    [Chdir (workdir (process r)); UpdateStatus "Task started" (Some 0%Z) None;
     TimerStart timeout; ContextEnter; HandlerCall] in
  let killed (after : list event) (r2 : WPSResponse)
      : list event * WPSResponse * outcome (option WPSResponse) :=
    (before ++ after ++
       [LogError ("Timeout occured in worker process "
                    +:+ identifier (process r2) +:+ ": " +:+ uuid r2);
        UpdateStatus "Timeout Error" None (Some ERROR_STATUS);
        Kill SIGABRT],
     update "Timeout Error" None (Some ERROR_STATUS) r2,
     Abort) in
  let finished := UpdateStatus "Task finished" (Some 100%Z) (Some DONE_STATUS) in
  let returns (r1 : WPSResponse)
      : list event * WPSResponse * outcome (option WPSResponse) :=
    let r2 := update "Task finished" (Some 100%Z) (Some DONE_STATUS) r1 in
    (before ++ [finished; ContextExit; TimerCancel],
     if is_async then r2 else serialized r2,
     if is_async then Val None else Val (Some (serialized r2))) in
  let raises (e : exn) (r1 : WPSResponse)
      : list event * WPSResponse * outcome (option WPSResponse) :=
    match e with
    | ProcessException msg =>
        (before ++ [ContextExit; UpdateStatus msg None (Some ERROR_STATUS);
                    TimerCancel],
         update msg None (Some ERROR_STATUS) r1,
         if is_async then Val None else Exc e)
    | _ => (before ++ [ContextExit; TimerCancel], r1, Exc e)
    end in
  let '(r1, b) := handler wps_request (update "Task started" (Some 0%Z) None r) in
  _run_process update handler wps_request is_async timeout r =
  match b with
  | Returns => returns r1
  | Raises e => raises e r1
  | Overruns => killed [] r1
  | EndsLate Returning O => killed [] r1
  | EndsLate Returning (S O) =>
      killed [finished]
        (update "Task finished" (Some 100%Z) (Some DONE_STATUS) r1)
  | EndsLate Returning (S (S O)) =>
      killed [finished; ContextExit]
        (update "Task finished" (Some 100%Z) (Some DONE_STATUS) r1)
  | EndsLate Returning (S (S (S _))) => returns r1
  | EndsLate (Raising _) O => killed [] r1
  | EndsLate (Raising _) (S O) => killed [ContextExit] r1
  | EndsLate (Raising (ProcessException msg)) (S (S O)) =>
      killed [ContextExit; UpdateStatus msg None (Some ERROR_STATUS)]
        (update msg None (Some ERROR_STATUS) r1)
  | EndsLate (Raising e) (S (S _)) => raises e r1
  end.
Proof.
  intros before killed finished returns raises.
  destruct (handler wps_request (update "Task started" (Some 0%Z) None r))
    as [r1 b] eqn:Hh.
  subst before killed finished returns raises.
  unfold _run_process, with_context, try_finally, try_except, call_handler,
    timer_start, timer_cancel, call, lift, due_in, raise,
    update_status, _timeout_kill, os_kill, emit, modify, get,
    mbind, mret, T_bind, T_ret, M_bind, M_ret.
  rewrite Hh.
  destruct b as [|e| |[|e] [|[|[|n]]]]; try destruct e;
    destruct is_async; reflexivity.
Qed.

End envelope.

Section envelope_claims.

Import PoolExecutor.

Variable update : string → option Z → option STATUS → WPSResponse → WPSResponse.


(** C8.  [_timeout_kill] issues the status update to ERROR_STATUS with the
    message 'Timeout Error' and then sends SIGABRT to its own process, which
    ends there.  In [_run_process] the timer is armed with the task's timeout
    before the handler is called; when the handler is still running as the
    timer fires, these two calls are the last calls of the task, in that
    order. *)
Theorem timeout_kill_order (handler : Handler) (wps_request : WPSRequest)
    (is_async : bool) (timeout : Z) (r : WPSResponse) :
  (∃ text,
     _timeout_kill update is_async r =
       ([LogError text; UpdateStatus "Timeout Error" None (Some ERROR_STATUS);
         Kill SIGABRT],
        update "Timeout Error" None (Some ERROR_STATUS) r,
        Abort)) ∧
  ((handler wps_request (update "Task started" (Some 0%Z) None r)).2 = Overruns →
   let '(calls, _, out) := _run_process update handler wps_request is_async timeout r in
   out = Abort ∧
   ∃ before text,
     calls = before ++ TimerStart timeout :: ContextEnter :: HandlerCall ::
               [LogError text;
                UpdateStatus "Timeout Error" None (Some ERROR_STATUS);
                Kill SIGABRT]).
Proof.
  split.
  - eexists. reflexivity.
  - intros Hb.
    pose proof (run_process_cases update handler wps_request is_async timeout r) as H.
    cbn zeta in H.
    destruct (handler wps_request (update "Task started" (Some 0%Z) None r))
      as [r1 b].
    cbn in Hb. subst b. rewrite H. split; [done|].
    eexists [_; _], _. reflexivity.
Qed.


End envelope_claims.

(** ** The envelope at concrete tasks *)

Section envelope_witnesses.

Import PoolExecutor.

(** A handler that is still running when the timer fires. *)
Lemma timeout_kill_order_witness :
  let r := mkResponse "job" STORE_STATUS true (Element "<doc/>")
             (mkProcess "buffer" "Buffer" "/srv/job" (Some "job")) in
  let handler : Handler := λ _ r, (r, Overruns) in
  let '(calls, _, out) := _run_process set_status handler (mkRequest 10) false 10 r in
  out = Abort ∧
  ∃ before text,
    calls = before ++ TimerStart 10 :: ContextEnter :: HandlerCall ::
              [LogError text;
               UpdateStatus "Timeout Error" None (Some ERROR_STATUS);
               Kill SIGABRT].
Proof.
  intros r handler.
  apply (proj2 (timeout_kill_order set_status handler (mkRequest 10) false 10 r)).
  reflexivity.
Defined.


(** *** What the two claims leave out *)



End envelope_witnesses.

(** * Further properties *)

(** ** The supervisor's table and timers over whole runs *)

Section supervisor_runs.

Import Supervisor.

Lemma run_snoc es e s : run (es ++ [e]) s = step (run es s) e.
Proof. unfold run. by rewrite fold_left_app. Qed.

Lemma handles_below_init timeout : handles_below (init timeout).
Proof. intros h x. cbn. by rewrite lookup_empty. Qed.

(** The loop never changes its timeout, and every timer it holds was armed
    with it. *)
Lemma delays_step timeout s e :
  (_timeout s = timeout ∧
   ∀ h d p, scheduled s !! h = Some (d, p) → d = timeout) →
  _timeout (step s e) = timeout ∧
  ∀ h d p, scheduled (step s e) !! h = Some (d, p) → d = timeout.
Proof.
  intros [Ht Hs]. destruct e as [pid notif | | h0]; cbn; [|done|].
  - unfold on_frame.
    destruct (String.eqb notif "BUSY"); [|destruct (String.eqb notif "DONE")].
    + cbn. split; [done|]. intros h d p [[_ [= <- _]]|[_ Hh]]%lookup_insert_Some;
        [done | by eapply Hs].
    + destruct (_busy s !! pid); cbn; [|done]. split; [done|].
      intros h d p [_ Hh]%lookup_delete_Some. by eapply Hs.
    + done.
  - unfold on_timer. destruct (scheduled s !! h0) as [[d0 p0]|]; [|done].
    unfold kill. cbn. destruct (_busy s !! p0); cbn; (split; [done|]);
      intros h d p [_ Hh]%lookup_delete_Some; by eapply Hs.
Qed.

Lemma delays_run timeout es :
  _timeout (run es (init timeout)) = timeout ∧
  ∀ h d p, scheduled (run es (init timeout)) !! h = Some (d, p) → d = timeout.
Proof.
  induction es as [|e es IH] using rev_ind.
  - split; [done|]. intros h d p. cbn. by rewrite lookup_empty.
  - rewrite run_snoc. by apply delays_step.
Qed.

(** X1.  Whatever frames arrive and whatever timers expire, a handle that is
    in the table is a pending timer of the loop, armed with the supervisor's
    timeout, whose callback is the kill of the pid it is stored under; and
    two pids never share a handle. *)
Theorem table_entry_is_armed (timeout : Z) (es : list event) (pid : Z) (h : nat) :
  _busy (run es (init timeout)) !! pid = Some h →
  scheduled (run es (init timeout)) !! h = Some (timeout, pid) ∧
  ∀ pid', _busy (run es (init timeout)) !! pid' = Some h → pid' = pid.
Proof.
  intros Hb.
  destruct (table_pending_run timeout es pid h Hb) as [d Hd].
  destruct (delays_run timeout es) as [_ Hdel].
  rewrite (Hdel _ _ _ Hd) in Hd. split; [done|].
  intros pid' Hb'. destruct (table_pending_run timeout es pid' h Hb') as [d' Hd'].
  congruence.
Qed.

Lemma busy_pids_snoc es e :
  Channel.busy_pids (es ++ [e]) =
  Channel.busy_pids es ++
    match e with
    | Recv pid notif => if String.eqb notif "BUSY" then [pid] else []
    | RecvMalformed | Expire _ => []
    end.
Proof.
  unfold Channel.busy_pids. rewrite omap_app. f_equal.
  destruct e as [pid notif | | h]; cbn; [|done..].
  by destruct (String.eqb notif "BUSY").
Qed.

(** X2.  The supervisor kills only workers that reported BUSY, and at most
    once per BUSY frame: the kills made and the timers still pending are
    together no more than the BUSY frames received. *)
Theorem kills_bounded_by_busy_frames (timeout : Z) (es : list event) :
  let s := run es (init timeout) in
  (length (killed s) + size (scheduled s) ≤ length (Channel.busy_pids es))%nat ∧
  (∀ pid, pid ∈ killed s → pid ∈ Channel.busy_pids es) ∧
  (∀ h d pid, scheduled s !! h = Some (d, pid) → pid ∈ Channel.busy_pids es).
Proof.
  cbn zeta. induction es as [|e es IH] using rev_ind.
  - cbn. split_and!; [done | by intros ? ?%elem_of_nil |].
    intros h d pid. by rewrite lookup_empty.
  - destruct IH as (Hn & Hk & Hs).
    pose proof (handles_below_run es _ (handles_below_init timeout)) as Hlt.
    rewrite run_snoc, busy_pids_snoc. set (s := run es (init timeout)) in *.
    rewrite length_app.
    destruct e as [pid notif | | h0]; cbn [step].
    + unfold on_frame. destruct (String.eqb notif "BUSY") eqn:Hnb.
      * cbn. rewrite map_size_insert_None.
        2:{ destruct (scheduled s !! next_handle s) eqn:Hx; [|done].
            apply Hlt in Hx. lia. }
        split_and!; [lia | |].
        -- intros p Hp. apply elem_of_app. left. by apply Hk.
        -- intros h d p [[_ [= _ <-]]|[_ Hh]]%lookup_insert_Some;
             apply elem_of_app; [right; by apply list_elem_of_singleton|].
           left. by eapply Hs.
      * cbn [length]. rewrite Nat.add_0_r, app_nil_r.
        destruct (String.eqb notif "DONE"); [|done].
        destruct (_busy s !! pid) as [hp|]; [|done]. cbn. split_and!; [|done|].
        -- rewrite map_size_delete. destruct (scheduled s !! hp); cbn; lia.
        -- intros h d p [_ Hh]%lookup_delete_Some. by eapply Hs.
    + rewrite app_nil_r. cbn. rewrite Nat.add_0_r. done.
    + rewrite app_nil_r. cbn [length]. rewrite Nat.add_0_r.
      unfold on_timer. destruct (scheduled s !! h0) as [[d0 p0]|] eqn:H0; [|done].
      assert (Hsz : S (size (delete h0 (scheduled s))) = size (scheduled s)).
      { rewrite map_size_delete, H0. cbn.
        assert (size (scheduled s) ≠ 0%nat); [|lia].
        apply map_size_ne_0_lookup. eauto. }
      unfold kill. cbn. destruct (_busy s !! p0); cbn.
      * rewrite length_app. cbn. split_and!; [lia | |].
        -- intros p [Hp | ->%list_elem_of_singleton]%elem_of_app;
             [by apply Hk | by eapply Hs].
        -- intros h d p [_ Hh]%lookup_delete_Some. by eapply Hs.
      * split_and!; [lia | done |].
        intros h d p [_ Hh]%lookup_delete_Some. by eapply Hs.
Qed.

(** The three invariants of the table along a run in which every BUSY
    arrives for a pid that is not in the table. *)
Lemma paired_run_invariants es s :
  handles_below s → table_pending s → no_stale s → Channel.paired_run s es →
  handles_below (run es s) ∧ table_pending (run es s) ∧ no_stale (run es s).
Proof.
  revert s. induction es as [|e es IH]; intros s Hlt Htp Hns Hp; [done|].
  destruct Hp as [He Hp]. cbn. apply IH; [| | |done].
  - by apply handles_below_step.
  - by apply table_pending_step.
  - by apply no_stale_step.
Qed.

Lemma init_invariants timeout :
  handles_below (init timeout) ∧ table_pending (init timeout) ∧
  no_stale (init timeout).
Proof.
  split_and!.
  - apply handles_below_init.
  - intros pid h. cbn. by rewrite lookup_empty.
  - intros h d pid. cbn. by rewrite lookup_empty.
Qed.

(** X3.  As long as no BUSY arrives for a pid that is already in the table,
    the pending timers are exactly the handles in the table: a timer whose
    callback is kill(pid) is pending exactly when the table holds its handle
    under pid, so that each pid has at most one pending kill-timer. *)
Theorem paired_run_has_one_timer (timeout : Z) (es : list event) (pid : Z) :
  Channel.paired_run (init timeout) es →
  let s := run es (init timeout) in
  (∀ h, is_Some (pending_for pid s !! h) ↔ _busy s !! pid = Some h) ∧
  (∀ h1 h2, is_Some (pending_for pid s !! h1) →
            is_Some (pending_for pid s !! h2) → h1 = h2).
Proof.
  intros Hp s.
  destruct (init_invariants timeout) as (H1 & H2 & H3).
  destruct (paired_run_invariants es _ H1 H2 H3 Hp) as (Hlt & Htp & Hns).
  fold s in Hlt, Htp, Hns.
  assert (Hiff : ∀ h, is_Some (pending_for pid s !! h) ↔ _busy s !! pid = Some h).
  { intros h. unfold pending_for. split.
    - intros [[d p] [Hh Hpid]%map_lookup_filter_Some]. cbn in Hpid. subst p.
      by eapply Hns.
    - intros Hb. destruct (Htp _ _ Hb) as [d Hd]. exists (d, pid).
      by apply map_lookup_filter_Some. }
  split; [done|]. intros h1 h2 ?%Hiff ?%Hiff. congruence.
Qed.

(** What the loop holds while it receives the frames of one notifier: the
    table has an entry for no other pid, and none at all while the notifier
    is idle. *)
Lemma single_client_run pid es : ∀ s busy n,
  handles_below s → table_pending s → no_stale s →
  (∀ p, is_Some (_busy s !! p) → p = pid ∧ busy = true) →
  Channel.received es = Client.alternation pid busy n →
  no_stale (run es s) ∧
  (∀ p, is_Some (_busy (run es s) !! p) → p = pid ∧ xorb busy (Nat.odd n) = true).
Proof.
  induction es as [|e es IH]; intros s busy n Hlt Htp Hns Hkeys Hrecv.
  - destruct n; [|done]. cbn. split; [done|].
    intros p Hp. destruct (Hkeys p Hp) as [-> ->]. done.
  - destruct e as [p notif | | h0].
    + cbn in Hrecv. destruct n as [|n]; [done|]. cbn in Hrecv.
      injection Hrecv as -> Hnotif Hrest.
      assert (Hpaired : paired s (Recv pid notif)).
      { cbn. intros ->. destruct busy; [done|].
        destruct (_busy s !! pid) eqn:Hb; [|done].
        by destruct (Hkeys pid (mk_is_Some _ _ Hb)). }
      cbn [run fold_left].
      destruct (IH (step s (Recv pid notif)) (negb busy) n) as [Hns' Hk'];
        [by apply handles_below_step | by apply table_pending_step
        | by apply no_stale_step | | done |].
      * intros p. cbn. unfold on_frame. subst notif. destruct busy; cbn.
        -- destruct (_busy s !! pid) as [hp|] eqn:Hb; cbn.
           ++ intros [x [Hne Hx]%lookup_delete_Some].
              by destruct (Hkeys p (mk_is_Some _ _ Hx)).
           ++ intros Hp. destruct (Hkeys p Hp) as [-> _]. rewrite Hb in Hp.
              by destruct Hp.
        -- intros [x [[<- _]|[_ Hx]]%lookup_insert_Some]; [done|].
           by destruct (Hkeys p (mk_is_Some _ _ Hx)).
      * split; [done|]. intros p Hp. destruct (Hk' p Hp) as [-> Hx].
        split; [done|]. rewrite Nat.odd_succ, <- Nat.negb_odd.
        by destruct busy, (Nat.odd n).
    + cbn in Hrecv. cbn [run fold_left step]. by apply (IH s busy n).
    + cbn in Hrecv. cbn [run fold_left].
      apply (IH (step s (Expire h0)) busy n);
        [by apply handles_below_step | by apply table_pending_step
        | by apply no_stale_step | | done].
      intros p. cbn. unfold on_timer.
      destruct (scheduled s !! h0) as [[d0 p0]|]; [|by apply Hkeys].
      unfold kill. cbn. destruct (_busy s !! p0); cbn; [|by apply Hkeys].
      intros [x [_ Hx]%lookup_delete_Some]. by apply (Hkeys p (mk_is_Some _ _ Hx)).
Qed.

(** X4.  The notifier and the supervisor together.  When the frames the loop
    receives are the frames one notifier has sent, in order and none lost,
    with timers expiring at any point in between, no timer is pending
    outside the table; the table has an entry for no other pid; and once the
    notifier is idle again nothing is pending at all. *)
Theorem notifier_frames_leave_no_stale_timer (timeout pid : Z)
    (ks : list Client.call) (es : list event) :
  let c := Client.run ks (Client.init pid) in
  let s := run es (init timeout) in
  Channel.received es = Client.sent c →
  no_stale s ∧
  (∀ p, is_Some (_busy s !! p) → p = pid ∧ Client._busy c = true) ∧
  (Client._busy c = false → scheduled s = ∅).
Proof.
  intros c s Hrecv.
  destruct (client_inv_run pid ks _ (client_inv_init pid)) as (n & _ & Hsent & Hbusy).
  fold c in Hsent, Hbusy. rewrite Hsent in Hrecv.
  destruct (init_invariants timeout) as (H1 & H2 & H3).
  destruct (single_client_run pid es (init timeout) false n H1 H2 H3) as [Hns Hk];
    [|done|].
  { intros p [x Hx]. cbn in Hx. by rewrite lookup_empty in Hx. }
  fold s in Hns, Hk. rewrite Hbusy. cbn in Hk.
  split_and!; [done | done |].
  intros Hidle. apply map_empty. intros h.
  destruct (scheduled s !! h) as [[d p]|] eqn:Hh; [|done].
  apply Hns in Hh. destruct (Hk p (mk_is_Some _ _ Hh)) as [_ Hodd]. congruence.
Qed.

(** What [stop] leaves of the loop's timers. *)
Lemma stop_scheduled s h :
  (∀ pid, _busy s !! pid = Some h → scheduled (stop s) !! h = None) ∧
  ((∀ pid, _busy s !! pid ≠ Some h) → scheduled (stop s) !! h = scheduled s !! h).
Proof.
  unfold stop. cbn.
  apply (map_fold_weak_ind
           (λ r m, (∀ pid, m !! pid = Some h → r !! h = None) ∧
                   ((∀ pid, m !! pid ≠ Some h) → r !! h = scheduled s !! h))).
  - split; [|done]. intros pid. by rewrite lookup_empty.
  - intros pid h' m r Hfresh [IHin IHout]. destruct (decide (h' = h)) as [->|Hne].
    + split; [intros; apply lookup_delete_eq|].
      intros Hno. destruct (Hno pid). apply lookup_insert_eq.
    + split.
      * intros p [[_ ->]|[_ Hp]]%lookup_insert_Some; [done|].
        rewrite lookup_delete_ne by done. by eapply IHin.
      * intros Hno. rewrite lookup_delete_ne by done. apply IHout.
        intros p Hp. apply (Hno p). rewrite lookup_insert_ne; [done|].
        intros ->. congruence.
Qed.

(** X5.  [stop] empties the table and cancels every handle that was in it,
    and no other; it kills no worker.  When no timer was pending outside the
    table, nothing is pending afterwards, so that no worker is killed after
    [stop], whatever timer events the loop still sees. *)
Theorem stop_cancels_table (s : t) :
  _busy (stop s) = ∅ ∧
  killed (stop s) = killed s ∧
  (∀ pid h, _busy s !! pid = Some h → scheduled (stop s) !! h = None) ∧
  (∀ h, (∀ pid, _busy s !! pid ≠ Some h) →
        scheduled (stop s) !! h = scheduled s !! h) ∧
  (no_stale s →
     scheduled (stop s) = ∅ ∧
     ∀ hs, killed (run (Expire <$> hs) (stop s)) = killed s).
Proof.
  split_and!; [done | done | | |].
  - intros pid h. apply stop_scheduled.
  - intros h. apply stop_scheduled.
  - intros Hns.
    assert (Hempty : scheduled (stop s) = ∅).
    { apply map_empty. intros h.
      destruct (scheduled s !! h) as [[d pid]|] eqn:Hh.
      - apply Hns in Hh. by apply (proj1 (stop_scheduled s h) pid).
      - destruct (scheduled (stop s) !! h) as [x|] eqn:Hx; [|done].
        pose proof (stop_scheduled s h) as [Hin Hout].
        rewrite Hout in Hx; [congruence|].
        intros pid Hp. specialize (Hin pid Hp). congruence. }
    split; [done|]. intros hs.
    assert (Hfix : ∀ s0, scheduled s0 = ∅ → run (Expire <$> hs) s0 = s0).
    { induction hs as [|h hs IH]; intros s0 H0; [done|].
      cbn. unfold on_timer. rewrite H0, lookup_empty.
      fold (run (Expire <$> hs) s0). by apply IH. }
    by rewrite Hfix.
Qed.

Lemma no_new_kill (l : list Z) pid : ∃ ks, l = l ++ ks ∧ pid ∉ ks.
Proof. exists []. split; [by rewrite app_nil_r | apply not_elem_of_nil]. Qed.

(** Events other than a BUSY for [pid] arm no timer for [pid], and an
    expiring timer kills the pid of its own callback. *)
Lemma no_timer_for_step pid s e :
  Channel.no_timer_for pid s →
  (∀ notif, e = Recv pid notif → notif ≠ "BUSY") →
  Channel.no_timer_for pid (step s e) ∧
  ∃ ks, killed (step s e) = killed s ++ ks ∧ pid ∉ ks.
Proof.
  unfold Channel.no_timer_for. intros Hno He.
  destruct e as [p notif | | h0]; cbn.
  - unfold on_frame. destruct (String.eqb_spec notif "BUSY") as [->|Hnb].
    + assert (p ≠ pid) by (intros ->; by eapply He).
      cbn. split; [|apply no_new_kill].
      intros h d [[_ [= _ ?]]|[_ Hh]]%lookup_insert_Some; [done|].
      by eapply Hno.
    + destruct (String.eqb notif "DONE"); [|split; [done | apply no_new_kill]].
      destruct (_busy s !! p); cbn; [|split; [done | apply no_new_kill]].
      split; [|apply no_new_kill].
      intros h d [_ Hh]%lookup_delete_Some. by eapply Hno.
  - split; [done | apply no_new_kill].
  - unfold on_timer. destruct (scheduled s !! h0) as [[d0 p0]|] eqn:H0;
      [|split; [done | apply no_new_kill]].
    assert (p0 ≠ pid) by (intros ->; by eapply Hno).
    unfold kill. cbn. destruct (_busy s !! p0); cbn.
    + split; [intros h d [_ Hh]%lookup_delete_Some; by eapply Hno|].
      exists [p0]. split; [done|]. by intros ->%list_elem_of_singleton.
    + split; [intros h d [_ Hh]%lookup_delete_Some; by eapply Hno|].
      apply no_new_kill.
Qed.

(** X6.  A DONE protects the worker.  When no timer is pending outside the
    table, a DONE for [pid] leaves no timer for [pid]; and from then on,
    until a BUSY for [pid] arrives, no event makes the supervisor kill
    [pid]. *)
Theorem done_protects_worker (s : t) (pid : Z) (es : list event) :
  no_stale s →
  (∀ notif, Recv pid notif ∈ es → notif ≠ "BUSY") →
  let s1 := on_frame pid "DONE" s in
  Channel.no_timer_for pid s1 ∧
  ∃ ks, killed (run es s1) = killed s ++ ks ∧ pid ∉ ks.
Proof.
  intros Hns Hes s1.
  assert (H1 : Channel.no_timer_for pid s1 ∧ killed s1 = killed s).
  { subst s1. unfold Channel.no_timer_for, on_frame. cbn.
    destruct (_busy s !! pid) as [hp|] eqn:Hb; cbn.
    - split; [|done]. intros h d [Hne Hh]%lookup_delete_Some.
      apply Hns in Hh. congruence.
    - split; [|done]. intros h d Hh. apply Hns in Hh. congruence. }
  destruct H1 as [Hno Hk]. split; [done|]. rewrite <- Hk.
  clear Hk Hns. generalize dependent s1. induction es as [|e es IH]; intros s1 Hno.
  - apply no_new_kill.
  - destruct (no_timer_for_step pid s1 e Hno) as (Hno' & ks1 & Hk1 & Hn1).
    { intros notif ->. apply Hes. apply elem_of_cons. by left. }
    destruct (IH (λ notif Hin, Hes notif (proj2 (elem_of_cons _ _ _) (or_intror Hin)))
                 _ Hno') as (ks2 & Hk2 & Hn2).
    exists (ks1 ++ ks2). cbn. fold (run es (step s1 e)).
    rewrite Hk2, Hk1, app_assoc. split; [done|].
    intros [?|?]%elem_of_app; done.
Qed.

End supervisor_runs.

(** ** The cleanup loop over the whole store *)

Section cleanup_store.

Import PoolExecutor.

Lemma state_eq (st1 st2 : State) :
  (∀ u, records st1 !! u = records st2 !! u) →
  (∀ u, u ∈ workdirs st1 ↔ u ∈ workdirs st2) →
  st1 = st2.
Proof.
  destruct st1 as [r1 w1], st2 as [r2 w2]. cbn. intros Hr Hw.
  f_equal; [by apply map_eq | by apply set_eq].
Qed.

Lemma deleted_in_Permutation cfg now_ts uuid l1 l2 :
  l1 ≡ₚ l2 → deleted_in cfg now_ts uuid l1 = deleted_in cfg now_ts uuid l2.
Proof.
  intros Hp. apply eq_true_iff_eq. unfold deleted_in.
  rewrite !existsb_exists. split; intros (x & Hin & Hx); exists x;
    (split; [|done]); apply list_elem_of_In; apply list_elem_of_In in Hin.
  - by rewrite <- Hp.
  - by rewrite Hp.
Qed.

Lemma deleted_in_absent cfg now_ts (m : gmap string Rec) uuid :
  m !! uuid = None → deleted_in cfg now_ts uuid (map_to_list m) = false.
Proof.
  intros Hm. apply not_true_iff_false. unfold deleted_in.
  rewrite existsb_exists. intros ([u r] & Hin & Hp). cbn in Hp.
  apply andb_true_iff in Hp as [Hu _]. apply bool_decide_eq_true in Hu.
  subst u. apply list_elem_of_In, elem_of_map_to_list in Hin. congruence.
Qed.

(** A tick of the loop, seen from any uuid. *)
Lemma clean_processes_lookup cfg now_ts st uuid :
  records (_clean_processes cfg now_ts st) !! uuid =
    match records st !! uuid with
    | Some rec => if deletes cfg now_ts rec then None else Some rec
    | None => None
    end ∧
  (uuid ∈ workdirs (_clean_processes cfg now_ts st) ↔
     uuid ∈ workdirs st ∧
     match records st !! uuid with
     | Some rec => deletes cfg now_ts rec = false
     | None => True
     end).
Proof.
  destruct (records st !! uuid) as [rec|] eqn:Hm.
  - apply clean_processes_record. done.
  - unfold _clean_processes.
    destruct (fold_clean_records cfg now_ts (map_to_list (records st)) st uuid)
      as [Hr Hw].
    rewrite Hr, Hw, (deleted_in_absent _ _ _ _ Hm), Hm. tauto.
Qed.

Lemma elapsed_ge_mono (now_ts now_ts' timestamp bound : Q) :
  (now_ts <= now_ts')%Q →
  elapsed_ge now_ts timestamp bound = true →
  elapsed_ge now_ts' timestamp bound = true.
Proof.
  intros Hle. rewrite !elapsed_ge_true. intros Hb.
  eapply Qle_trans; [exact Hb|].
  unfold Qminus. by apply Qplus_le_l.
Qed.

(** A record that the loop deletes at one clock reading, it deletes at any
    later one. *)
Lemma deletes_mono cfg (now_ts now_ts' : Q) rec :
  (now_ts <= now_ts')%Q →
  deletes cfg now_ts rec = true → deletes cfg now_ts' rec = true.
Proof.
  intros Hle. unfold deletes, dangling, expired.
  destruct (negb (spec_pinned rec)); [|done]. cbn.
  destruct (rec_timestamp rec) as [ts|]; [|done].
  destruct (nonterminal rec); cbn.
  - rewrite !orb_false_r. destruct (rec_timeout rec); [|done].
    by apply elapsed_ge_mono.
  - by apply elapsed_ge_mono.
Qed.

(** X7.  A cleanup tick adds nothing and touches nothing but the records of
    the store and the workdirs named after them: a record found afterwards
    was there before, unchanged; no workdir appears; and a workdir that has
    no record in the store is never removed. *)
Theorem cleanup_only_removes (cfg : Config) (now_ts : Q) (st : State)
    (uuid : string) :
  let st' := _clean_processes cfg now_ts st in
  (∀ rec, records st' !! uuid = Some rec → records st !! uuid = Some rec) ∧
  (uuid ∈ workdirs st' → uuid ∈ workdirs st) ∧
  (records st !! uuid = None →
     records st' !! uuid = None ∧ (uuid ∈ workdirs st' ↔ uuid ∈ workdirs st)).
Proof.
  cbn zeta. destruct (clean_processes_lookup cfg now_ts st uuid) as [Hr Hw].
  rewrite Hr, Hw. destruct (records st !! uuid) as [rec|].
  - split_and!; [|tauto|done].
    intros r. by destruct (deletes cfg now_ts rec).
  - split_and!; [done | tauto | tauto].
Qed.

(** A tick at a clock reading that is not later than that of the tick
    before changes nothing; a tick at a later one leaves what it would have
    left alone. *)
Lemma clean_processes_twice cfg (t t' : Q) st :
  ((t <= t')%Q →
   _clean_processes cfg t' (_clean_processes cfg t st) = _clean_processes cfg t' st) ∧
  ((t' <= t)%Q →
   _clean_processes cfg t' (_clean_processes cfg t st) = _clean_processes cfg t st).
Proof.
  split; intros Ht; apply state_eq; intros u.
  - rewrite (proj1 (clean_processes_lookup cfg t' (_clean_processes cfg t st) u)).
    rewrite (proj1 (clean_processes_lookup cfg t' st u)).
    rewrite (proj1 (clean_processes_lookup cfg t st u)).
    destruct (records st !! u) as [rec|]; [|done].
    destruct (deletes cfg t rec) eqn:Hd; [|done].
    by rewrite (deletes_mono cfg t t' rec Ht Hd).
  - rewrite (proj2 (clean_processes_lookup cfg t' (_clean_processes cfg t st) u)).
    rewrite (proj2 (clean_processes_lookup cfg t' st u)).
    rewrite (proj2 (clean_processes_lookup cfg t st u)).
    rewrite (proj1 (clean_processes_lookup cfg t st u)).
    destruct (records st !! u) as [rec|]; [|tauto].
    destruct (deletes cfg t rec) eqn:Hd; [|tauto].
    rewrite (deletes_mono cfg t t' rec Ht Hd). intuition congruence.
  - rewrite (proj1 (clean_processes_lookup cfg t' (_clean_processes cfg t st) u)).
    rewrite (proj1 (clean_processes_lookup cfg t st u)).
    destruct (records st !! u) as [rec|]; [|done].
    destruct (deletes cfg t rec) eqn:Hd; [done|].
    destruct (deletes cfg t' rec) eqn:Hd'; [|done].
    by rewrite (deletes_mono cfg t' t rec Ht Hd') in Hd.
  - rewrite (proj2 (clean_processes_lookup cfg t' (_clean_processes cfg t st) u)).
    rewrite (proj1 (clean_processes_lookup cfg t st u)).
    rewrite (proj2 (clean_processes_lookup cfg t st u)).
    destruct (records st !! u) as [rec|]; [|tauto].
    destruct (deletes cfg t rec) eqn:Hd; [tauto|].
    destruct (deletes cfg t' rec) eqn:Hd'; [|tauto].
    by rewrite (deletes_mono cfg t' t rec Ht Hd') in Hd.
Qed.

(** X8.  Cleanup ticks compose.  On a store that nothing else writes to, the
    ticks of the cleanup task, whatever their number and order, leave what
    the single tick at the latest of their clock readings leaves; and what a
    tick deletes, any later tick deletes. *)
Theorem cleanup_ticks_compose (cfg : Config) (ticks : list Q) (latest : Q)
    (st : State) :
  latest ∈ ticks →
  (∀ t, t ∈ ticks → (t <= latest)%Q) →
  Schedule._run_cleanup cfg ticks st = _clean_processes cfg latest st ∧
  ∀ t uuid, t ∈ ticks →
    records (_clean_processes cfg t st) !! uuid = None →
    records (_clean_processes cfg latest st) !! uuid = None.
Proof.
  intros Hin Hmax. split.
  - assert (Hbefore : ∀ ts st0, (∀ t, t ∈ ts → (t <= latest)%Q) →
              _clean_processes cfg latest (Schedule._run_cleanup cfg ts st0) =
              _clean_processes cfg latest st0).
    { induction ts as [|t ts IH]; intros st0 Hts; [done|].
      cbn. fold (Schedule._run_cleanup cfg ts (_clean_processes cfg t st0)).
      rewrite IH by (intros; apply Hts; by right).
      apply clean_processes_twice, Hts. by left. }
    assert (Hafter : ∀ ts st0, (∀ t, t ∈ ts → (t <= latest)%Q) →
              Schedule._run_cleanup cfg ts (_clean_processes cfg latest st0) =
              _clean_processes cfg latest st0).
    { induction ts as [|t ts IH]; intros st0 Hts; [done|].
      cbn. rewrite (proj2 (clean_processes_twice cfg latest t st0))
        by (apply Hts; by left).
      apply IH. intros; apply Hts; by right. }
    destruct (list_elem_of_split _ _ Hin) as (pre & post & ->).
    unfold Schedule._run_cleanup. rewrite fold_left_app. cbn.
    fold (Schedule._run_cleanup cfg pre st).
    fold (Schedule._run_cleanup cfg post
            (_clean_processes cfg latest (Schedule._run_cleanup cfg pre st))).
    rewrite Hbefore by (intros; apply Hmax, elem_of_app; by left).
    apply Hafter. intros; apply Hmax, elem_of_app; right; by right.
  - intros t u Ht.
    rewrite (proj1 (clean_processes_lookup cfg latest st u)).
    rewrite (proj1 (clean_processes_lookup cfg t st u)).
    destruct (records st !! u) as [rec|]; [|done].
    destruct (deletes cfg t rec) eqn:Hd; [|done].
    by rewrite (deletes_mono cfg t latest rec (Hmax t Ht) Hd).
Qed.

(** X9.  Pinning exempts a record from the cleanup loop only.  A record whose
    ['pinned'] is true survives every tick with its workdir, whatever its
    status, timestamp, timeout and expiration; [delete_results] does not
    read the flag and deletes a pinned record whose status is not a member
    below DONE. *)
Theorem pinned_exempts_from_cleanup_only (cfg : Config) (now_ts : Q)
    (st : State) (uuid : string) (rec : Rec) :
  records st !! uuid = Some rec →
  rec_pinned rec = Some true →
  (records (_clean_processes cfg now_ts st) !! uuid = Some rec ∧
   (uuid ∈ workdirs (_clean_processes cfg now_ts st) ↔ uuid ∈ workdirs st)) ∧
  (nonterminal rec = false →
   delete_results uuid st = (Val true, clean_response uuid st) ∧
   records (clean_response uuid st) !! uuid = None).
Proof.
  intros Hm Hpin. split.
  - destruct (clean_processes_record cfg now_ts st uuid rec Hm) as [Hr Hw].
    assert (Hd : deletes cfg now_ts rec = false).
    { unfold deletes, spec_pinned. by rewrite Hpin. }
    rewrite Hd in Hr, Hw. split; [done | tauto].
  - intros Hterm. split; [|apply clean_response_spec].
    unfold delete_results. rewrite Hm. unfold nonterminal in Hterm.
    by destruct (status_lt_done rec) as [[]|].
Qed.

(** X10.  [delete_results] changes the store only when it returns [True];
    and after it has returned [True] for a uuid, a second call for that uuid
    raises [FileNotFoundError] and changes nothing. *)
Theorem delete_results_twice (uuid : string) (st : State) :
  match delete_results uuid st with
  | (Val true, st') =>
      delete_results uuid st' = (Exc (FileNotFoundError uuid), st')
  | (_, st') => st' = st
  end.
Proof.
  unfold delete_results at 1. destruct (records st !! uuid) as [rec|]; [|done].
  assert (Hgone : delete_results uuid (clean_response uuid st) =
                  (Exc (FileNotFoundError uuid), clean_response uuid st)).
  { unfold delete_results.
    by rewrite (proj1 (clean_response_spec uuid st)). }
  by destruct (status_lt_done rec) as [[]|].
Qed.

(** X11.  The outcome of a tick does not depend on the order in which the
    store enumerates its records: the loop run over any permutation of the
    snapshot leaves the same store and the same workdirs. *)
Theorem cleanup_order_independent (cfg : Config) (now_ts : Q) (st : State)
    (snapshot : list (string * Rec)) :
  snapshot ≡ₚ map_to_list (records st) →
  fold_left (clean_record cfg now_ts) snapshot st = _clean_processes cfg now_ts st.
Proof.
  intros Hp. unfold _clean_processes. apply state_eq; intros u.
  - rewrite (proj1 (fold_clean_records cfg now_ts snapshot st u)).
    rewrite (proj1 (fold_clean_records cfg now_ts (map_to_list (records st)) st u)).
    by rewrite (deleted_in_Permutation _ _ _ _ _ Hp).
  - rewrite (proj2 (fold_clean_records cfg now_ts snapshot st u)).
    rewrite (proj2 (fold_clean_records cfg now_ts (map_to_list (records st)) st u)).
    by rewrite (deleted_in_Permutation _ _ _ _ _ Hp).
Qed.

End cleanup_store.

(** ** [execute] in both modes *)

Section execute_modes.

Import PoolExecutor.

Variable update : string → option Z → option STATUS → WPSResponse → WPSResponse.

Lemma update_status_run msg percent st r :
  update_status update msg percent st r =
  ([UpdateStatus msg percent st], update msg percent st r, Val tt).
Proof. reflexivity. Qed.


(** X13.  Fire and forget.  When the status of the response is
    STORE_AND_UPDATE_STATUS, [execute] logs the request, issues the update
    'Task accepted', submits the task, and returns the response as that
    update left it, whatever the handler does then and however long it
    takes; it raises nothing.  The task itself never returns a response and
    never ends with a [ProcessException]. *)
Theorem execute_fire_and_forget (handler : Handler) (in_time : bool)
    (wps_request : WPSRequest) (wps_response : WPSResponse) :
  status wps_response = STORE_AND_UPDATE_STATUS →
  let accepted := update "Task accepted" None None (submitted wps_response) in
  let ex := execute update handler in_time wps_request wps_response in
  let task := (_run_process update handler wps_request true
                 (PoolExecutor.timeout wps_request) accepted).2 in
  result ex = Val (Some accepted) ∧
  (∃ uuid after,
     controller ex =
       LogRequest uuid :: UpdateStatus "Task accepted" None None ::
       ApplyAsync true (PoolExecutor.timeout wps_request) :: after) ∧
  (∀ response, task ≠ Val (Some response)) ∧
  (∀ msg, task ≠ Exc (ProcessException msg)).
Proof.
  intros Hmode accepted ex task. subst ex task. unfold execute.
  assert (Hst : status (submitted wps_response) = status wps_response) by done.
  rewrite Hst, bool_decide_eq_true_2 by done. rewrite update_status_run.
  fold accepted.
  pose proof (run_process_cases update handler wps_request true
                (PoolExecutor.timeout wps_request) accepted) as H.
  cbn zeta in H.
  destruct (handler wps_request (update "Task started" (Some 0%Z) None accepted))
    as [r1 b].
  rewrite H. clear H.
  destruct b as [|e| |[|e] [|[|[|n]]]]; try destruct e; cbn;
    split_and!; eauto; done.
Qed.

End execute_modes.

(** ** The process registry *)

Section processes.

Import PoolExecutor Processes.

Lemma getitem_setitem k k' v d :
  getitem k (setitem k' v d) = if String.eqb k' k then Some v else getitem k d.
Proof.
  induction d as [|[k0 v0] d IH]; cbn; [done|].
  destruct (String.eqb_spec k0 k') as [->|Hne]; cbn.
  - by destruct (String.eqb k' k).
  - rewrite IH. destruct (String.eqb_spec k0 k) as [->|]; [|done].
    by rewrite (proj2 (String.eqb_neq _ _)).
Qed.

Lemma install_snoc ps p old :
  install_processes (ps ++ [p]) old =
  setitem (identifier p) p (install_processes ps old).
Proof. unfold install_processes. by rewrite fold_left_app. Qed.

Lemma elem_of_setitem k v d kp :
  kp ∈ setitem k v d → kp = (k, v) ∨ kp ∈ d.
Proof.
  induction d as [|[k0 v0] d IH]; cbn.
  - intros ->%list_elem_of_singleton. by left.
  - destruct (String.eqb_spec k0 k) as [->|Hne].
    + intros [->|?]%elem_of_cons; [by left | right; by right].
    + intros [->|?]%elem_of_cons; [right; by left|].
      destruct IH as [->|?]; [done | by left | right; by right].
Qed.

Lemma setitem_keys k v d :
  (setitem k v d).*1 = if bool_decide (k ∈ d.*1) then d.*1 else d.*1 ++ [k].
Proof.
  induction d as [|[k0 v0] d IH]; cbn; [done|].
  destruct (String.eqb_spec k0 k) as [->|Hne]; cbn.
  - rewrite bool_decide_eq_true_2; [done | by left].
  - rewrite IH. destruct (decide (k ∈ d.*1)) as [Hin|Hout].
    + rewrite !bool_decide_eq_true_2; [done | by right | done].
    + rewrite !bool_decide_eq_false_2; [done | | done].
      intros [?|?]%elem_of_cons; congruence.
Qed.

Lemma well_keyed_install ps old : well_keyed (install_processes ps old).
Proof.
  induction ps as [|p ps [Hnd Hk]] using rev_ind.
  - split; [constructor | by intros ? ? ?%elem_of_nil].
  - rewrite install_snoc. split.
    + rewrite setitem_keys. case_bool_decide as Hin; [done|].
      apply NoDup_app. split_and!; [done | | apply NoDup_singleton].
      intros k Hk1 ->%list_elem_of_singleton. done.
    + intros k q [[= -> ->]|Hq]%elem_of_setitem; [done | by apply Hk].
Qed.

Lemma getitem_well_keyed d k p :
  NoDup d.*1 → (k, p) ∈ d → getitem k d = Some p.
Proof.
  induction d as [|[k0 v0] d IH]; cbn; [by intros _ ?%elem_of_nil|].
  intros [Hnotin Hnd]%NoDup_cons [[= -> ->]|Hin]%elem_of_cons.
  - by rewrite String.eqb_refl.
  - destruct (String.eqb_spec k0 k) as [->|]; [|by apply IH].
    destruct Hnotin. apply list_elem_of_fmap. by exists (k, p).
Qed.

Lemma getitem_install processes old ident :
  getitem ident (install_processes processes old) =
  last (filter (λ p, identifier p = ident) processes).
Proof.
  induction processes as [|p ps IH] using rev_ind; [done|].
  rewrite install_snoc, getitem_setitem, filter_app, IH.
  destruct (String.eqb_spec (identifier p) ident) as [Hid|Hid].
  - rewrite filter_cons_True by done. cbn. by rewrite last_snoc.
  - rewrite filter_cons_False by done. cbn. by rewrite app_nil_r.
Qed.

Lemma getitem_elem_of k p d : getitem k d = Some p → (k, p) ∈ d.
Proof.
  induction d as [|[k0 v0] d IH]; cbn; [done|].
  destruct (String.eqb_spec k0 k) as [->|];
    [intros [= ->]; by left | right; by apply IH].
Qed.

(** X14.  After [install_processes], [get_process] returns the last process
    of the list that has the identifier asked for, and raises
    [UnknownProcessError] with that identifier when the list has none,
    whatever was installed before. *)
Theorem get_process_last_wins (processes : list WPSProcess) (old : dict)
    (ident : string) :
  get_process ident (install_processes processes old) =
  match last (filter (λ p, identifier p = ident) processes) with
  | Some p => inl p
  | None => inr (UnknownProcessError ident)
  end.
Proof.
  unfold get_process. by rewrite getitem_install.
Qed.

(** X15.  [list_processes] after [install_processes] lists each identifier
    of the list once: the processes listed have pairwise different
    identifiers, each is a process of the list and is the one [get_process]
    returns for its identifier, and every process of the list has its
    identifier listed. *)
Theorem list_processes_by_identifier (processes : list WPSProcess) (old : dict) :
  let installed := install_processes processes old in
  let listed := list_processes installed in
  NoDup (identifier <$> listed) ∧
  (∀ p, p ∈ listed →
        p ∈ processes ∧ get_process (identifier p) installed = inl p) ∧
  (∀ p, p ∈ processes → ∃ q, q ∈ listed ∧ identifier q = identifier p) ∧
  (length listed ≤ length processes)%nat.
Proof.
  intros installed listed.
  destruct (well_keyed_install processes old) as [Hnd Hk]. fold installed in Hnd, Hk.
  assert (Hids : identifier <$> listed = installed.*1).
  { subst listed. unfold list_processes. rewrite <- list_fmap_compose.
    apply list_fmap_ext. intros i [k p] Hkp. cbn.
    apply (Hk k p). by eapply list_elem_of_lookup_2. }
  assert (Hget : ∀ p, p ∈ listed → get_process (identifier p) installed = inl p).
  { intros p [[k q] [-> Hin]]%list_elem_of_fmap. cbn. unfold get_process.
    rewrite (Hk _ _ Hin). by rewrite (getitem_well_keyed _ _ _ Hnd Hin). }
  split_and!.
  - by rewrite Hids.
  - intros p Hp. split; [|by apply Hget].
    specialize (Hget p Hp). subst installed. unfold get_process in Hget.
    rewrite getitem_install in Hget.
    destruct (last _) as [q|] eqn:Hlast; [|done]. injection Hget as ->.
    apply last_Some_elem_of, list_elem_of_filter in Hlast. tauto.
  - intros p Hp.
    assert (Hsome : is_Some (last (filter (λ q, identifier q = identifier p) processes))).
    { apply last_is_Some. intros Hnil.
      assert (p ∈ filter (λ q, identifier q = identifier p) processes)
        by (by apply list_elem_of_filter).
      rewrite Hnil in H. by apply elem_of_nil in H. }
    destruct Hsome as [q Hq].
    pose proof (getitem_install processes old (identifier p)) as Hg.
    rewrite Hq in Hg. fold installed in Hg. exists q. split.
    + subst listed. unfold list_processes.
      apply list_elem_of_fmap. exists (identifier p, q). split; [done|].
      by apply getitem_elem_of.
    + apply last_Some_elem_of, list_elem_of_filter in Hq. tauto.
  - subst listed installed. unfold list_processes. rewrite length_fmap.
    clear. induction processes as [|p ps IH] using rev_ind; [done|].
    rewrite install_snoc, length_app. cbn.
    assert (Hlen : ∀ k v d, (length (setitem k v d) ≤ S (length d))%nat).
    { intros k v d. induction d as [|[k0 v0] d IHd]; cbn; [done|].
      destruct (String.eqb k0 k); cbn; lia. }
    specialize (Hlen (identifier p) p (install_processes ps old)). lia.
Qed.

End processes.

(** ** The further properties at concrete inputs *)

Section further_witnesses.

Import PoolExecutor.

(** Three BUSY frames, two of them for pid 7: the table holds the third
    handle for pid 7. *)
Lemma table_entry_is_armed_witness :
  let es := [Supervisor.Recv 7 "BUSY"; Supervisor.Recv 8 "BUSY";
             Supervisor.Recv 7 "BUSY"] in
  Supervisor.scheduled (Supervisor.run es (Supervisor.init 10)) !! 2%nat
    = Some (10%Z, 7%Z) ∧
  ∀ pid', Supervisor._busy (Supervisor.run es (Supervisor.init 10)) !! pid'
            = Some 2%nat → pid' = 7%Z.
Proof.
  intros es.
  apply (table_entry_is_armed 10 es 7 2). by vm_compute.
Defined.

(** Two workers; worker 7 runs two jobs, the timer of worker 8 expires. *)
Lemma paired_run_has_one_timer_witness :
  let es := [Supervisor.Recv 7 "BUSY"; Supervisor.Recv 8 "BUSY";
             Supervisor.Recv 7 "DONE"; Supervisor.Expire 1;
             Supervisor.Recv 7 "BUSY"] in
  let s := Supervisor.run es (Supervisor.init 10) in
  (∀ h, is_Some (Supervisor.pending_for 7 s !! h) ↔
        Supervisor._busy s !! 7%Z = Some h) ∧
  (∀ h1 h2, is_Some (Supervisor.pending_for 7 s !! h1) →
            is_Some (Supervisor.pending_for 7 s !! h2) → h1 = h2).
Proof.
  intros es.
  apply (paired_run_has_one_timer 10 es 7).
  cbn. split_and!; try done; intros _; by vm_compute.
Defined.

(** A notifier called busy, busy, done, whose timer expires before the DONE
    arrives. *)
Lemma notifier_frames_leave_no_stale_timer_witness :
  let ks := [Client.NotifyBusy; Client.NotifyBusy; Client.NotifyDone] in
  let es := [Supervisor.Recv 7 "BUSY"; Supervisor.Expire 0;
             Supervisor.Recv 7 "DONE"] in
  Channel.received es = Client.sent (Client.run ks (Client.init 7)) ∧
  Supervisor.scheduled (Supervisor.run es (Supervisor.init 10)) = ∅.
Proof.
  intros ks es.
  assert (Hrecv : Channel.received es = Client.sent (Client.run ks (Client.init 7)))
    by reflexivity.
  split; [exact Hrecv|].
  apply (notifier_frames_leave_no_stale_timer 10 7 ks es Hrecv). reflexivity.
Defined.

(** Worker 7 is done; worker 8 then overruns and is killed, worker 7 is
    not. *)
Lemma done_protects_worker_witness :
  let s := Supervisor.run [Supervisor.Recv 7 "BUSY"] (Supervisor.init 10) in
  let es := [Supervisor.Recv 8 "BUSY"; Supervisor.Expire 0; Supervisor.Expire 1] in
  ∃ ks, Supervisor.killed (Supervisor.run es (Supervisor.on_frame 7 "DONE" s))
          = Supervisor.killed s ++ ks ∧ 7%Z ∉ ks.
Proof.
  intros s es.
  apply (done_protects_worker s 7 es).
  - destruct (init_invariants 10) as (H1 & H2 & H3).
    apply (paired_run_invariants [Supervisor.Recv 7 "BUSY"] _ H1 H2 H3).
    cbn. split; [|done]. intros _. by vm_compute.
  - intros notif. subst es. rewrite !elem_of_cons, elem_of_nil.
    intros [?|[?|[?|?]]]; done.
Defined.

(** Three ticks, the latest of them in the middle, on a store with a
    dangling record. *)
Lemma cleanup_ticks_compose_witness :
  let rec := mkRec (Some "STARTED") (Some 1000%Q) (Some 60%Q) None None in
  let st := mkState {["job" := rec]} {["job"]} in
  Schedule._run_cleanup (mkConfig 86400) [1010%Q; 1300%Q; 1200%Q] st =
    _clean_processes (mkConfig 86400) 1300%Q st.
Proof.
  intros rec st.
  apply (cleanup_ticks_compose (mkConfig 86400) [1010%Q; 1300%Q; 1200%Q] 1300%Q st).
  - rewrite !elem_of_cons. tauto.
  - intros t. rewrite !elem_of_cons, elem_of_nil.
    intros [->|[->|[->|[]]]]; by vm_compute.
Defined.

(** A pinned DONE_STATUS record long past its expiration. *)
Lemma pinned_exempts_from_cleanup_only_witness :
  let rec := mkRec (Some "DONE_STATUS") (Some 1000%Q) None (Some 10%Q) (Some true) in
  let st := mkState {["job" := rec]} {["job"]} in
  records (_clean_processes (mkConfig 100) 99999%Q st) !! "job" = Some rec ∧
  delete_results "job" st = (Val true, clean_response "job" st).
Proof.
  intros rec st.
  destruct (pinned_exempts_from_cleanup_only (mkConfig 100) 99999%Q st "job" rec)
    as [[Hkept _] Hdel]; [by vm_compute | reflexivity |].
  split; [exact Hkept|]. apply Hdel. reflexivity.
Defined.

(** The snapshot of a store of two records, enumerated backwards. *)
Lemma cleanup_order_independent_witness :
  let old := mkRec (Some "DONE_STATUS") (Some 1000%Q) None (Some 10%Q) None in
  let running := mkRec (Some "STARTED") (Some 1000%Q) (Some 600%Q) None None in
  let st := mkState {["a" := old; "b" := running]} {["a"; "b"]} in
  fold_left (clean_record (mkConfig 100) 1100%Q)
    (reverse (map_to_list (records st))) st =
  _clean_processes (mkConfig 100) 1100%Q st.
Proof.
  intros old running st.
  apply (cleanup_order_independent (mkConfig 100) 1100%Q st).
  apply reverse_Permutation.
Defined.

(** A fire-and-forget job whose handler raises. *)
Lemma execute_fire_and_forget_witness :
  let r := mkResponse "job" STORE_AND_UPDATE_STATUS false (Element "<doc/>")
             (mkProcess "buffer" "Buffer" "/srv/job" None) in
  let handler : Handler := λ _ r, (r, Raises (Exception "boom")) in
  result (execute set_status handler false (mkRequest 10) r) =
    Val (Some (set_status "Task accepted" None None (submitted r))).
Proof.
  intros r handler.
  apply (execute_fire_and_forget set_status handler false (mkRequest 10) r).
  reflexivity.
Defined.

End further_witnesses.

(** ** A late result, and deletion against cleanup *)

Section late_and_races.

Import PoolExecutor.

Variable update : string → option Z → option STATUS → WPSResponse → WPSResponse.

(** X16.  A SYNC caller can be told of a timeout for a task that succeeds.
    When the handler returns but the pool does not report in time (the task
    waited for a worker, say), [execute] raises
    [NoApplicableCode('Execute Timeout', code=424)], while the task has run
    to its end in the worker: its last status update is the one to
    DONE_STATUS at 100, and no update to ERROR_STATUS is made anywhere. *)
Theorem sync_timeout_of_a_successful_task (handler : Handler)
    (wps_request : WPSRequest) (wps_response : WPSResponse) :
  status wps_response ≠ STORE_AND_UPDATE_STATUS →
  (handler wps_request
     (update "Task started" (Some 0%Z) None (submitted wps_response))).2 = Returns →
  let ex := execute update handler false wps_request wps_response in
  result ex = Exc (NoApplicableCode "Execute Timeout" 424) ∧
  (∃ before, worker ex =
     before ++ [UpdateStatus "Task finished" (Some 100%Z) (Some DONE_STATUS);
                ContextExit; TimerCancel]) ∧
  Schedule.updates_to ERROR_STATUS (controller ex ++ worker ex) = 0%nat.
Proof.
  intros Hsync Hb ex. subst ex. unfold execute.
  assert (Hst : status (submitted wps_response) = status wps_response) by done.
  rewrite Hst, bool_decide_eq_false_2 by done.
  pose proof (run_process_cases update handler wps_request false
                (PoolExecutor.timeout wps_request) (submitted wps_response)) as H.
  cbn zeta in H.
  destruct (handler wps_request
              (update "Task started" (Some 0%Z) None (submitted wps_response)))
    as [r1 b].
  cbn in Hb. subst b. rewrite H. clear H. cbn.
  split_and!; [done | by eexists [_; _; _; _; _] | done].
Qed.

(** How [clean_response] and a tick act on one another. *)
Lemma clean_response_lookup uuid st other :
  records (clean_response uuid st) !! other =
    (if bool_decide (other = uuid) then None else records st !! other) ∧
  (other ∈ workdirs (clean_response uuid st) ↔
     other ≠ uuid ∧ other ∈ workdirs st).
Proof.
  destruct (clean_response_spec uuid st) as (Hgone & Hrm & Hother).
  case_bool_decide as Heq.
  - subst other. split; [done|]. tauto.
  - destruct (Hother other Heq) as [-> ->]. tauto.
Qed.

(** X17.  A deletion asked by a user and a cleanup tick can come in either
    order: the store and the workdirs are the same after [delete_results]
    followed by a tick as after the tick followed by [delete_results]
    (whose answer may then be [FileNotFoundError] instead of [True]). *)
Theorem delete_results_commutes_with_cleanup (cfg : Config) (now_ts : Q)
    (uuid : string) (st : State) :
  (delete_results uuid (_clean_processes cfg now_ts st)).2 =
  _clean_processes cfg now_ts (delete_results uuid st).2.
Proof.
  pose proof (clean_processes_lookup cfg now_ts st uuid) as [Hr Hw].
  unfold delete_results. rewrite Hr.
  destruct (records st !! uuid) as [rec|] eqn:Hm; [|done].
  destruct (status_lt_done rec) as [[]|] eqn:Hlt; cbn [snd].
  - destruct (deletes cfg now_ts rec); [done|]. by rewrite Hlt.
  - destruct (deletes cfg now_ts rec) eqn:Hd; [|rewrite Hlt]; cbn [snd];
      apply state_eq; intros u.
    + rewrite (proj1 (clean_processes_lookup cfg now_ts (clean_response uuid st) u)).
      rewrite (proj1 (clean_processes_lookup cfg now_ts st u)).
      rewrite (proj1 (clean_response_lookup uuid st u)).
      case_bool_decide as Hu; [|done]. subst u. by rewrite Hm, Hd.
    + rewrite (proj2 (clean_processes_lookup cfg now_ts (clean_response uuid st) u)).
      rewrite (proj2 (clean_processes_lookup cfg now_ts st u)).
      rewrite (proj1 (clean_response_lookup uuid st u)).
      rewrite (proj2 (clean_response_lookup uuid st u)).
      case_bool_decide as Hu; [|tauto]. subst u. rewrite Hm. intuition congruence.
    + rewrite (proj1 (clean_response_lookup uuid _ u)).
      rewrite (proj1 (clean_processes_lookup cfg now_ts (clean_response uuid st) u)).
      rewrite (proj1 (clean_processes_lookup cfg now_ts st u)).
      rewrite (proj1 (clean_response_lookup uuid st u)).
      by case_bool_decide.
    + rewrite (proj2 (clean_response_lookup uuid _ u)).
      rewrite (proj2 (clean_processes_lookup cfg now_ts (clean_response uuid st) u)).
      rewrite (proj2 (clean_processes_lookup cfg now_ts st u)).
      rewrite (proj1 (clean_response_lookup uuid st u)).
      rewrite (proj2 (clean_response_lookup uuid st u)).
      case_bool_decide; tauto.
  - destruct (deletes cfg now_ts rec) eqn:Hd; [|rewrite Hlt]; cbn [snd];
      apply state_eq; intros u.
    + rewrite (proj1 (clean_processes_lookup cfg now_ts (clean_response uuid st) u)).
      rewrite (proj1 (clean_processes_lookup cfg now_ts st u)).
      rewrite (proj1 (clean_response_lookup uuid st u)).
      case_bool_decide as Hu; [|done]. subst u. by rewrite Hm, Hd.
    + rewrite (proj2 (clean_processes_lookup cfg now_ts (clean_response uuid st) u)).
      rewrite (proj2 (clean_processes_lookup cfg now_ts st u)).
      rewrite (proj1 (clean_response_lookup uuid st u)).
      rewrite (proj2 (clean_response_lookup uuid st u)).
      case_bool_decide as Hu; [|tauto]. subst u. rewrite Hm. intuition congruence.
    + rewrite (proj1 (clean_response_lookup uuid _ u)).
      rewrite (proj1 (clean_processes_lookup cfg now_ts (clean_response uuid st) u)).
      rewrite (proj1 (clean_processes_lookup cfg now_ts st u)).
      rewrite (proj1 (clean_response_lookup uuid st u)).
      by case_bool_decide.
    + rewrite (proj2 (clean_response_lookup uuid _ u)).
      rewrite (proj2 (clean_processes_lookup cfg now_ts (clean_response uuid st) u)).
      rewrite (proj2 (clean_processes_lookup cfg now_ts st u)).
      rewrite (proj1 (clean_response_lookup uuid st u)).
      rewrite (proj2 (clean_response_lookup uuid st u)).
      case_bool_decide; tauto.
Qed.

End late_and_races.

Section late_witness.

Import PoolExecutor.

(** A handler that returns, reported late. *)
Lemma sync_timeout_of_a_successful_task_witness :
  let r := mkResponse "job" STORE_STATUS false (Element "<doc/>")
             (mkProcess "buffer" "Buffer" "/srv/job" None) in
  let handler : Handler := λ _ r, (r, Returns) in
  result (execute set_status handler false (mkRequest 10) r) =
    Exc (NoApplicableCode "Execute Timeout" 424).
Proof.
  intros r handler.
  apply (sync_timeout_of_a_successful_task set_status handler (mkRequest 10) r);
    [discriminate | reflexivity].
Defined.

End late_witness.
